(** * Safe delete: verification of [scripts/trash.ts]

    The script moves a batch of paths into a recoverable trash location.
    This development embeds its functions shallowly and proves the
    properties its specification states about them.

    Layout of the file:
    - [Js]         the few string operations of the language the script uses;
    - [Path]       the POSIX behaviour of [node:path];
    - [Platform]   the operating system as the script sees it ([node:fs],
                   [process], [Date.now], [Bun.spawn]), kept abstract;
    - [Trash]      the functions of [trash.ts], over a [Platform];
    - [Naming]     the names [buildTrashTarget] tries;
    - [Sim]        a small concrete platform, to run the functions on;
    - [Batch]      what a call reads off a world, and the laws a platform
                   may obey;
    - [Samples]    some machines;
    - [PathFacts], [SimFacts], [TrashFacts]  the lemmas and the theorems. *)

From stdpp Require Import base list strings pretty gmap.
From Stdlib Require Import ZArith Ascii String.

Open Scope string_scope.
Open Scope list_scope.
Open Scope stdpp_scope.

(** ** Strings of the language *)

Module Js.

(** [s.startsWith(c)] for a one-character [c]. *)
Definition startsWith (s : string) (c : ascii) : bool :=
  match s with
  | String a _ => bool_decide (a = c)
  | EmptyString => false
  end.

(** [s.endsWith(c)] for a one-character [c]. *)
Fixpoint endsWith (s : string) (c : ascii) : bool :=
  match s with
  | EmptyString => false
  | String a EmptyString => bool_decide (a = c)
  | String _ r => endsWith r c
  end.

(** White space and line terminators removed by [trim], among the
    characters a [string] of this development can hold (code units below
    256): TAB, LF, VT, FF, CR, SPACE and NBSP. *)
Definition isWhiteSpace (c : ascii) : bool :=
  let n := Ascii.nat_of_ascii c in
  bool_decide (n = 9 ∨ n = 10 ∨ n = 11 ∨ n = 12 ∨ n = 13 ∨ n = 32 ∨ n = 160).

Fixpoint trimStart (s : string) : string :=
  match s with
  | String c r => if isWhiteSpace c then trimStart r else s
  | EmptyString => EmptyString
  end.

Definition trimEnd (s : string) : string :=
  String.rev (trimStart (String.rev s)).

(** [s.trim()]. *)
Definition trim (s : string) : string := trimEnd (trimStart s).

(** [s.split(sep)] for a one-character separator: the pieces between the
    separators, in order; a string without separator is its only piece. *)
Fixpoint split (sep : ascii) (s : string) : list string :=
  match s with
  | EmptyString => [EmptyString]
  | String c r =>
      if bool_decide (c = sep) then EmptyString :: split sep r
      else match split sep r with
           | piece :: pieces => String c piece :: pieces
           | [] => [String c EmptyString]
           end
  end.

(** [pieces.join(sep)]. *)
Fixpoint joinWith (sep : string) (pieces : list string) : string :=
  match pieces with
  | [] => EmptyString
  | [piece] => piece
  | piece :: rest => piece +:+ sep +:+ joinWith sep rest
  end.

(** [set.add(x)] on a [Set], which iterates in insertion order: a value
    already present keeps its place. *)
Definition setAdd (set : list string) (x : string) : list string :=
  if bool_decide (x ∈ set) then set else set ++ [x].

(** [s.slice(n)]: [s] without its first [n] characters. *)
Fixpoint sliceFrom (n : nat) (s : string) : string :=
  match n, s with
  | S n, String _ r => sliceFrom n r
  | _, _ => s
  end.

(** Truthiness of a string: every string but the empty one. *)
Definition truthy (s : string) : bool := negb (String.eqb s "").

End Js.

(** ** [node:path], POSIX flavour

    [trash.ts] imports [basename], [join], [normalize] and [resolve].  They
    are lexical: none of them looks at the file system.  [resolve] reads the
    working directory of the process when its arguments give no absolute
    path, so it takes it as a first argument here. *)

Module Path.

Definition isAbsolute (path : string) : bool := Js.startsWith path "/".

(** One segment met while normalizing; [rstack] holds the segments kept so
    far, last one first.  Empty segments and [.] vanish, [..] removes the
    segment before it when there is one that is not itself [..], and is
    kept only where the path may climb above its start. *)
Definition normalizeSegment (allowAboveRoot : bool)
    (rstack : list string) (segment : string) : list string :=
  if String.eqb segment "" || String.eqb segment "." then rstack
  else if String.eqb segment ".." then
    match rstack with
    | top :: below =>
        if String.eqb top ".."
        then (if allowAboveRoot then ".." :: rstack else rstack)
        else below
    | [] => if allowAboveRoot then [".."] else []
    end
  else segment :: rstack.

Definition normalizeString (path : string) (allowAboveRoot : bool) : string :=
  Js.joinWith "/"
    (rev (fold_left (normalizeSegment allowAboveRoot) (Js.split "/" path) [])).

Definition normalize (path : string) : string :=
  if String.eqb path "" then "."
  else
    let absolute := isAbsolute path in
    let trailingSeparator := Js.endsWith path "/" in
    let body := normalizeString path (negb absolute) in
    if String.eqb body "" then
      if absolute then "/" else if trailingSeparator then "./" else "."
    else
      let body := if trailingSeparator then body +:+ "/" else body in
      if absolute then "/" +:+ body else body.

(** The loop of [resolve]: arguments from the last to the first, then the
    working directory, until an absolute one has been prepended. *)
Fixpoint resolveLoop (pending : list string) (resolvedPath : string)
    : string * bool :=
  match pending with
  | [] => (resolvedPath, false)
  | path :: earlier =>
      if String.eqb path "" then resolveLoop earlier resolvedPath
      else
        let resolvedPath := path +:+ "/" +:+ resolvedPath in
        if isAbsolute path then (resolvedPath, true)
        else resolveLoop earlier resolvedPath
  end.

Definition resolve (cwd : string) (args : list string) : string :=
  let '(resolvedPath, resolvedAbsolute) := resolveLoop (rev args ++ [cwd]) "" in
  let body := normalizeString resolvedPath (negb resolvedAbsolute) in
  if resolvedAbsolute then "/" +:+ body
  else if String.eqb body "" then "." else body.

Definition join (args : list string) : string :=
  match filter (λ arg, arg ≠ "") args with
  | [] => "."
  | parts => normalize (Js.joinWith "/" parts)
  end.

(** [basename(path)]: trailing separators are dropped, then the part after
    the last separator is returned. *)
Definition basename (path : string) : string :=
  default "" (last (filter (λ segment, segment ≠ "") (Js.split "/" path))).

(** A string without separator: splitting it leaves it whole. *)
Definition sepFree (name : string) : Prop := Js.split "/" name = [name].

(** A name that denotes an entry of a directory: no separator inside, not
    empty, and neither [.] nor [..]. *)
Definition properName (name : string) : Prop :=
  sepFree name ∧ name ≠ "" ∧ name ≠ "." ∧ name ≠ "..".

(** The text [join] puts in front of a proper name when it joins it to
    [dir]: the normalized directory and a separator. *)
Definition entryPrefix (dir : string) : string :=
  if String.eqb dir "" then ""
  else
    let absolute := isAbsolute dir in
    let kept := rev (fold_left (normalizeSegment (negb absolute)) (Js.split "/" dir) []) in
    (if absolute then "/" else "")
    +:+ (match kept with [] => "" | _ => Js.joinWith "/" kept +:+ "/" end).

End Path.

(** ** Values thrown and promises rejected

    [trash.ts] inspects a caught value in two ways: [formatTrashError] asks
    whether it is an [Error] and reads its [message], [isCrossDeviceError]
    also reads its [code].  A value that is not an [Error] is known by its
    [String(value)] and by the [code] it may carry all the same. *)

Inductive Thrown : Type :=
| ErrorObject (message : string) (code : option string)
| OtherValue (text : string) (code : option string).

(** ** The platform

    What [node:fs], [process] and [Bun.spawn] do is not in the script; the
    functions below take it as a record over an abstract [World].  Reading
    ([cwd], [env], [dateNow], [existsSync]) leaves the world as it is; the
    other operations return the world they leave behind, whether they
    succeed or throw. *)

(** The stream a subprocess hands out for its standard error, as far as
    [readProcessStream] can tell streams apart. *)
Record StreamValue : Type := {
  (** the [text] property: absent (or falsy), or a method whose call throws
      or rejects, or resolves to a string or to [null]/[undefined] *)
  textMethod : option (Thrown + option string);
  (** whether the value is a [ReadableStream] or any other object *)
  isObject : bool;
  (** [new Response(stream).text()] *)
  responseText : Thrown + string;
}.

Inductive Stream : Type :=
| FalsyStream
| TruthyStream (value : StreamValue).

Inductive Stdio : Type := Ignore | Pipe.

Record Subprocess : Type := {
  (** [proc.exited]: the exit status, or a rejection *)
  exited : Thrown + Z;
  (** [proc.stderr] *)
  stderr : Stream;
}.

Record Platform (World : Type) : Type := {
  (** [process.cwd()], read by [resolve] *)
  cwd : World → string;
  (** [process.env.NAME] *)
  env : World → string → option string;
  (** [Date.now()] *)
  dateNow : World → Z;
  (** [existsSync(path)] *)
  existsSync : World → string → bool;
  (** [renameSync(src, dst)]; [None] when it returns *)
  renameSync : World → string → string → option Thrown * World;
  (** [cpSync(src, dst, { recursive: true })] *)
  cpSync : World → string → string → option Thrown * World;
  (** [rmSync(path, { recursive: true, force: true })] *)
  rmSync : World → string → option Thrown * World;
  (** [Bun.spawn(argv, { stdout: 'ignore', stderr })], run until the
      subprocess has exited: the world is the one the subprocess leaves *)
  spawn : World → list string → Stdio → (Thrown + Subprocess) * World;
}.

Arguments cwd {World} _ _.
Arguments env {World} _ _ _.
Arguments dateNow {World} _ _.
Arguments existsSync {World} _ _ _.
Arguments renameSync {World} _ _ _ _.
Arguments cpSync {World} _ _ _ _.
Arguments rmSync {World} _ _ _.
Arguments spawn {World} _ _ _ _.

(** ** The script *)

(** [MoveResult]. *)
Record MoveResult : Type := {
  missing : list string;
  errors : list string;
}.

(** The [options] argument of [movePathsToTrash]; [refusePaths] is optional. *)
Record Options : Type := {
  allowMissing : bool;
  refusePaths : option (list string);
}.

(** An element of [existing]. *)
Record Item : Type := {
  raw : string;
  absolute : string;
}.

(** [cachedTrashCliCommand : string | null | undefined]. *)
Inductive Cached : Type :=
| Undefined
| Null
| Command (command : string).

(** A call that reaches outside the process and may change the world. *)
Inductive Call : Type :=
| CallSpawn (argv : list string)
| CallRename (src dst : string)
| CallCp (src dst : string)
| CallRm (path : string).

(** How a computation ends: it returns, it throws, or (for the one loop of
    the script that is not bounded by its input) it is still running when
    the fuel is spent. *)
Inductive Outcome (A : Type) : Type :=
| Returned (a : A)
| Threw (e : Thrown)
| Diverged.

Arguments Returned {A} _.
Arguments Threw {A} _.
Arguments Diverged {A}.

Global Instance Thrown_eq_dec : EqDecision Thrown.
Proof. solve_decision. Defined.
Global Instance Call_eq_dec : EqDecision Call.
Proof. solve_decision. Defined.
Global Instance Item_eq_dec : EqDecision Item.
Proof. solve_decision. Defined.

Module Trash.

Section Computations.

Context {World : Type}.

(** The state a call of the script runs in: the world, the module
    variable [cachedTrashCliCommand], and the calls made so far (a ghost
    record, kept to state what was and was not done). *)
Record State : Type := {
  world : World;
  cachedTrashCliCommand : Cached;
  calls : list Call;
}.

Definition M (A : Type) : Type := State → Outcome A * State.

Definition ret {A} (a : A) : M A := λ s, (Returned a, s).
Definition throw {A} (e : Thrown) : M A := λ s, (Threw e, s).
Definition diverge {A} : M A := λ s, (Diverged, s).

Definition bind {A B} (m : M A) (k : A → M B) : M B :=
  λ s, match m s with
       | (Returned a, s') => k a s'
       | (Threw e, s') => (Threw e, s')
       | (Diverged, s') => (Diverged, s')
       end.

(** [try { body } catch (error) { handler }]. *)
Definition tryCatch {A} (body : M A) (handler : Thrown → M A) : M A :=
  λ s, match body s with
       | (Threw e, s') => handler e s'
       | finished => finished
       end.

(** [await promise] for a promise already settled. *)
Definition await {A} (promise : Thrown + A) : M A :=
  match promise with
  | inl e => throw e
  | inr a => ret a
  end.

Definition readWorld {A} (f : World → A) : M A :=
  λ s, (Returned (f (world s)), s).

Definition callWorld {A} (call : Call) (f : World → (Thrown + A) * World) : M A :=
  λ s, let '(result, w) := f (world s) in
       (match result with inl e => Threw e | inr a => Returned a end,
        {| world := w;
           cachedTrashCliCommand := cachedTrashCliCommand s;
           calls := calls s ++ [call] |}).

Definition voidResult (r : option Thrown * World) : (Thrown + unit) * World :=
  (match r.1 with Some e => inl e | None => inr tt end, r.2).

Definition getCached : M Cached := λ s, (Returned (cachedTrashCliCommand s), s).

Definition setCached (value : Cached) : M unit :=
  λ s, (Returned tt,
        {| world := world s; cachedTrashCliCommand := value; calls := calls s |}).

End Computations.

Arguments State World : clear implicits.
Arguments M World A : clear implicits.

Declare Scope trash_scope.
Delimit Scope trash_scope with trash.
Notation "'let*' x := m 'in' k" := (bind m (λ x, k))
  (at level 10, x pattern, m at level 100, k at level 200) : trash_scope.
Notation "m ;; k" := (bind m (λ _, k))
  (at level 100, k at level 200, right associativity) : trash_scope.
Local Open Scope trash_scope.

Section WithPlatform.

Context {World : Type} (os : Platform World).

Local Abbreviation M := (M World).

(** *** The platform calls of the script *)

Definition existsSyncM (path : string) : M bool :=
  readWorld (λ w, existsSync os w path).

Definition renameSyncM (src dst : string) : M unit :=
  callWorld (CallRename src dst) (λ w, voidResult (renameSync os w src dst)).

Definition cpSyncM (src dst : string) : M unit :=
  callWorld (CallCp src dst) (λ w, voidResult (cpSync os w src dst)).

Definition rmSyncM (path : string) : M unit :=
  callWorld (CallRm path) (λ w, voidResult (rmSync os w path)).

Definition spawnM (argv : list string) (stderrMode : Stdio) : M Subprocess :=
  callWorld (CallSpawn argv) (λ w, spawn os w argv stderrMode).

(** *** [formatTrashError] *)

Definition formatTrashError (error : Thrown) : string :=
  match error with
  | ErrorObject message _ => message
  | OtherValue text _ => text
  end.

(** *** [resolvePath] *)

Definition resolvePath (baseDir input : string) : M string :=
  if Js.startsWith input "/" then ret input
  else readWorld (λ w, Path.resolve (cwd os w) [baseDir; input]).

(** *** [getTrashDirectory] *)

Definition getTrashDirectory : M (option string) :=
  let* home := readWorld (λ w, env os w "HOME") in
  match home with
  | None => ret None
  | Some home =>
      if negb (Js.truthy home) then ret None
      else
        let trash := Path.join [home; ".Trash"] in
        let* present := existsSyncM trash in
        if negb present then ret None else ret (Some trash)
  end.

(** *** [buildTrashTarget] *)

(** The name tried in the loop body when the counter is [attempt]. *)
Definition disambiguated (baseName : string) (timestamp : Z) (attempt : N) : string :=
  baseName +:+ "-" +:+ pretty timestamp +:+
  (if (0 <? attempt)%N then "-" +:+ pretty attempt else "").

(** The [while] loop; [fuel] bounds the number of times its body runs.
    The counter [attempt] is a number of the language, which counts exactly
    up to 2^53; here it is a natural number and counts on. *)
Fixpoint buildTrashTargetLoop (fuel : nat) (trashDir baseName : string)
    (timestamp : Z) (attempt : N) (candidate : string) : M string :=
  let* occupied := existsSyncM candidate in
  if occupied then
    match fuel with
    | O => diverge
    | S fuel =>
        let candidate := Path.join [trashDir; disambiguated baseName timestamp attempt] in
        let attempt := (attempt + 1)%N in
        buildTrashTargetLoop fuel trashDir baseName timestamp attempt candidate
    end
  else ret candidate.

Definition buildTrashTarget (fuel : nat) (trashDir absolutePath : string) : M string :=
  let baseName := Path.basename absolutePath in
  let* timestamp := readWorld (dateNow os) in
  let attempt := 0%N in
  let candidate := Path.join [trashDir; baseName] in
  buildTrashTargetLoop fuel trashDir baseName timestamp attempt candidate.

(** *** [isCrossDeviceError] *)

Definition isCrossDeviceError (error : Thrown) : bool :=
  match error with
  | ErrorObject _ (Some code) => String.eqb code "EXDEV"
  | _ => false
  end.

(** *** [readProcessStream] *)

Definition readProcessStream (stream : Stream) : M string :=
  match stream with
  | FalsyStream => ret ""
  | TruthyStream value =>
      let* early :=
        tryCatch
          (match textMethod value with
           | Some call =>
               let* text := await call in
               ret (Some (default "" text))
           | None => ret None
           end)
          (λ _, ret None) in
      match early with
      | Some text => ret text
      | None =>
          tryCatch
            (if isObject value then await (responseText value) else ret "")
            (λ _, ret "")
      end
  end.

(** *** [findTrashCliCommand] *)

Definition candidateNames : list string := ["trash-put"; "trash"].

Definition searchDirs (pathVar homebrewVar : option string) : list string :=
  let fromPath :=
    match pathVar with
    | Some path =>
        if Js.truthy path
        then foldl (λ dirs segment,
                      if Js.truthy segment then Js.setAdd dirs segment else dirs)
                   [] (Js.split ":" path)
        else []
    | None => []
    end in
  let homebrewPrefix := default "/opt/homebrew" homebrewVar in
  let dirs := Js.setAdd fromPath (Path.join [homebrewPrefix; "opt"; "trash"; "bin"]) in
  Js.setAdd dirs "/usr/local/opt/trash/bin".

Definition candidatePaths (dirs : list string) : list string :=
  foldl (λ paths name,
           foldl (λ paths dir, Js.setAdd paths (Path.join [dir; name]))
                 (Js.setAdd paths name) dirs)
        [] candidateNames.

(** The probing loop over [candidatePaths]. *)
Fixpoint probeCandidates (candidates : list string) : M (option string) :=
  match candidates with
  | [] =>
      setCached Null;;
      ret None
  | candidate :: rest =>
      let* found :=
        tryCatch
          (let* proc := spawnM [candidate; "--help"] Ignore in
           let* exitCode := await (exited proc) in
           if (exitCode =? 0)%Z || (exitCode =? 1)%Z then
             setCached (Command candidate);;
             ret (Some candidate)
           else ret None)
          (λ _, ret None) in
      match found with
      | Some candidate => ret (Some candidate)
      | None => probeCandidates rest
      end
  end.

Definition findTrashCliCommand : M (option string) :=
  let* cached := getCached in
  match cached with
  | Command command => ret (Some command)
  | Null => ret None
  | Undefined =>
      let* pathVar := readWorld (λ w, env os w "PATH") in
      let* homebrewVar := readWorld (λ w, env os w "HOMEBREW_PREFIX") in
      probeCandidates (candidatePaths (searchDirs pathVar homebrewVar))
  end.

(** *** [movePathsToTrash] *)

(** [refuseCanonicals], the [Set] built before the first loop. *)
Definition refuseCanonicals (baseDir : string) (options : Options) : M (gset string) :=
  let* workspaceCanonical :=
    readWorld (λ w, Path.normalize (Path.resolve (cwd os w) [baseDir])) in
  let* extra :=
    readWorld (λ w, map (λ p, Path.normalize (Path.resolve (cwd os w) [baseDir; p]))
                        (default [] (refusePaths options))) in
  ret (list_to_set (Path.normalize "/" :: workspaceCanonical :: extra)).

(** How the first loop ends: by its [return] on a protected path, or at the
    end of [paths] with [missing] and [existing] filled. *)
Inductive Classified : Type :=
| Refused (rawPath : string)
| Sorted (missing : list string) (existing : list Item).

Fixpoint classifyPaths (refuse : gset string) (baseDir : string) (options : Options)
    (paths : list string) (missing : list string) (existing : list Item)
    : M Classified :=
  match paths with
  | [] => ret (Sorted missing existing)
  | rawPath :: rest =>
      let* absolute := resolvePath baseDir rawPath in
      let canonical := Path.normalize absolute in
      if bool_decide (canonical ∈ refuse) then ret (Refused rawPath)
      else
        let* present := existsSyncM absolute in
        if negb present then
          let missing :=
            if negb (allowMissing options) then missing ++ [rawPath] else missing in
          classifyPaths refuse baseDir options rest missing existing
        else
          classifyPaths refuse baseDir options rest missing
            (existing ++ [{| raw := rawPath; absolute := absolute |}])
  end.

(** The block guarded by [if (trashCliCommand)]: [Some result] where it
    returns from [movePathsToTrash], [None] where control leaves the block. *)
Definition runTrashCli (trashCliCommand : string) (missing : list string)
    (existing : list Item) : M (option MoveResult) :=
  tryCatch
    (let cliArgs := trashCliCommand :: map absolute existing in
     let* proc := spawnM cliArgs Pipe in
     let* stderrText := readProcessStream (stderr proc) in
     let* exitCode := await (exited proc) in
     if (exitCode =? 0)%Z then
       ret (Some {| missing := missing; errors := [] |})
     else if bool_decide (0 < String.length (Js.trim stderrText)) then
       ret (Some {| missing := missing; errors := [Js.trim stderrText] |})
     else ret None)
    (λ error,
       ret (Some {| missing := missing; errors := [formatTrashError error] |})).

(** One turn of the second loop. *)
Definition moveItem (fuel : nat) (trashDir : string) (item : Item)
    (errors : list string) : M (list string) :=
  tryCatch
    (let* target := buildTrashTarget fuel trashDir (absolute item) in
     tryCatch
       (renameSyncM (absolute item) target)
       (λ error,
          if isCrossDeviceError error then
            cpSyncM (absolute item) target;;
            rmSyncM (absolute item)
          else throw error);;
     ret errors)
    (λ error,
       ret (errors ++ ["Failed to move " +:+ raw item +:+ " to Trash: "
                         +:+ formatTrashError error])).

Fixpoint moveItems (fuel : nat) (trashDir : string) (existing : list Item)
    (errors : list string) : M (list string) :=
  match existing with
  | [] => ret errors
  | item :: rest =>
      let* errors := moveItem fuel trashDir item errors in
      moveItems fuel trashDir rest errors
  end.

(** The part of [movePathsToTrash] after the helper block. *)
Definition moveDirectly (fuel : nat) (missing : list string) (existing : list Item)
    : M MoveResult :=
  let* trashDir := getTrashDirectory in
  match trashDir with
  | None =>
      ret {| missing := missing;
             errors := ["Unable to locate macOS Trash directory (HOME/.Trash)."] |}
  | Some trashDir =>
      let* errors := moveItems fuel trashDir existing [] in
      ret {| missing := missing; errors := errors |}
  end.

(** The part of [movePathsToTrash] after the first loop. *)
Definition trashExisting (fuel : nat) (missing : list string) (existing : list Item)
    : M MoveResult :=
  if (List.length existing =? 0)%nat then
    ret {| missing := missing; errors := [] |}
  else
    let* trashCliCommand := findTrashCliCommand in
    let* early :=
      match trashCliCommand with
      | Some command =>
          if Js.truthy command then runTrashCli command missing existing
          else ret None
      | None => ret None
      end in
    match early with
    | Some result => ret result
    | None => moveDirectly fuel missing existing
    end.

Definition movePathsToTrash (fuel : nat) (paths : list string) (baseDir : string)
    (options : Options) : M MoveResult :=
  let* refuse := refuseCanonicals baseDir options in
  let* classified := classifyPaths refuse baseDir options paths [] [] in
  match classified with
  | Refused rawPath =>
      ret {| missing := [];
             errors := ["Refusing to trash protected path: " +:+ rawPath] |}
  | Sorted missing existing => trashExisting fuel missing existing
  end.

End WithPlatform.
End Trash.

(** ** The names tried for a destination

    [buildTrashTarget] tries the base name, then the base name with the
    timestamp, then that with the suffixes [-1], [-2], ...  [trashName] is
    the name tried in the [k]-th place, [candidateAt] the path [join] makes
    of it. *)

Module Naming.

Definition trashName (baseName : string) (timestamp : Z) (k : nat) : string :=
  match k with
  | O => baseName
  | S j => Trash.disambiguated baseName timestamp (N.of_nat j)
  end.

Definition candidateAt (trashDir baseName : string) (timestamp : Z) (k : nat) : string :=
  Path.join [trashDir; trashName baseName timestamp k].

End Naming.

(** ** A concrete platform

    A small machine to run the script on: a flat store of the paths that
    exist (a directory tree counts as one entry with its content), the
    paths that lie on a second device, the paths locked against renaming,
    the environment variables, a clock, and the programs that can be
    spawned. *)

Module Sim.

Record Program : Type := {
  (** exit status when called with [--help] *)
  helpStatus : Z;
  (** exit status when called with paths *)
  runStatus : Z;
  (** what it writes on its standard error when called with paths *)
  errorText : string;
  (** whether it takes the paths it is given away *)
  takesPaths : bool;
}.

Record World : Type := {
  workingDirectory : string;
  variables : gmap string string;
  clock : Z;
  files : gmap string string;
  otherDevice : list string;
  locked : list string;
  programs : gmap string Program;
}.

Definition withFiles (w : World) (files' : gmap string string) : World :=
  {| workingDirectory := workingDirectory w;
     variables := variables w;
     clock := clock w;
     files := files';
     otherDevice := otherDevice w;
     locked := locked w;
     programs := programs w |}.

Definition errno (code syscall path : string) : Thrown :=
  ErrorObject (code +:+ ": " +:+ syscall +:+ " '" +:+ path +:+ "'") (Some code).

(** Whether [src] and [dst] lie on different devices. *)
Definition crossesDevices (w : World) (src dst : string) : bool :=
  xorb (bool_decide (src ∈ otherDevice w)) (bool_decide (dst ∈ otherDevice w)).

Definition rename (w : World) (src dst : string) : option Thrown * World :=
  match files w !! src with
  | None => (Some (errno "ENOENT" "rename" src), w)
  | Some content =>
      if bool_decide (src ∈ locked w) then (Some (errno "EACCES" "rename" src), w)
      else if crossesDevices w src dst then (Some (errno "EXDEV" "rename" src), w)
      else (None, withFiles w (<[dst := content]> (delete src (files w))))
  end.

Definition cp (w : World) (src dst : string) : option Thrown * World :=
  match files w !! src with
  | None => (Some (errno "ENOENT" "cp" src), w)
  | Some content => (None, withFiles w (<[dst := content]> (files w)))
  end.

Definition rm (w : World) (path : string) : option Thrown * World :=
  (None, withFiles w (delete path (files w))).

Definition textStream (text : string) : Stream :=
  TruthyStream {| textMethod := Some (inr (Some text));
                  isObject := true;
                  responseText := inr text |}.

Definition run (w : World) (argv : list string) (stderrMode : Stdio)
    : (Thrown + Subprocess) * World :=
  match argv with
  | [] => (inl (ErrorObject "cmds must be an array of strings" None), w)
  | command :: args =>
      match programs w !! command with
      | None => (inl (errno "ENOENT" "posix_spawn" command), w)
      | Some program =>
          if bool_decide (args = ["--help"]) then
            (inr {| exited := inr (helpStatus program); stderr := FalsyStream |}, w)
          else
            (inr {| exited := inr (runStatus program);
                    stderr := match stderrMode with
                              | Pipe => textStream (errorText program)
                              | Ignore => FalsyStream
                              end |},
             if takesPaths program
             then withFiles w (foldr delete (files w) args)
             else w)
      end
  end.

Definition platform : Platform World := {|
  cwd := workingDirectory;
  env := λ w name, variables w !! name;
  dateNow := clock;
  existsSync := λ w path, bool_decide (is_Some (files w !! path));
  renameSync := rename;
  cpSync := cp;
  rmSync := rm;
  spawn := run;
|}.

(** The names under which the store holds something directly behind the
    prefix of [dir]. *)
Definition entryNames (w : World) (dir : string) : list string :=
  map (Js.sliceFrom (String.length (Path.entryPrefix dir))) (elements (dom (files w))).

(** A state of the script on this machine, before it has probed or called
    anything. *)
Definition fresh (w : World) : Trash.State World :=
  {| Trash.world := w; Trash.cachedTrashCliCommand := Undefined; Trash.calls := [] |}.

End Sim.

(** * Reading a batch off a world *)

Module Batch.
Section WithPlatform.

Context {World : Type} (os : Platform World).

(** ** What the first loop computes, read off a world

    The first loop only reads.  For a world [w], [absoluteOf] is the
    absolute form [resolvePath] gives a raw path, [canonicalOf] its canonical
    form, [protectedPaths] the canonical protected paths, and [presentIn]
    whether the raw path exists. *)

Definition absoluteOf (w : World) (baseDir rawPath : string) : string :=
  if Js.startsWith rawPath "/" then rawPath
  else Path.resolve (cwd os w) [baseDir; rawPath].

Definition canonicalOf (w : World) (baseDir rawPath : string) : string :=
  Path.normalize (absoluteOf w baseDir rawPath).

Definition protectedPaths (w : World) (baseDir : string) (options : Options)
    : list string :=
  Path.normalize "/"
  :: Path.normalize (Path.resolve (cwd os w) [baseDir])
  :: map (λ p, Path.normalize (Path.resolve (cwd os w) [baseDir; p]))
         (default [] (refusePaths options)).

Definition isProtected (w : World) (baseDir : string) (options : Options)
    (rawPath : string) : Prop :=
  canonicalOf w baseDir rawPath ∈ protectedPaths w baseDir options.

Definition presentIn (w : World) (baseDir rawPath : string) : Prop :=
  existsSync os w (absoluteOf w baseDir rawPath) = true.

Definition itemOf (w : World) (baseDir rawPath : string) : Item :=
  {| raw := rawPath; absolute := absoluteOf w baseDir rawPath |}.

Global Instance isProtected_dec w baseDir options rawPath :
  Decision (isProtected w baseDir options rawPath).
Proof. unfold isProtected. apply _. Defined.

Global Instance presentIn_dec w baseDir rawPath :
  Decision (presentIn w baseDir rawPath).
Proof. unfold presentIn. apply _. Defined.

(** [missing] and [existing] at the end of the first loop. *)
Definition missingOf (w : World) (baseDir : string) (options : Options)
    (paths : list string) : list string :=
  if allowMissing options then []
  else filter (λ rawPath, ¬ presentIn w baseDir rawPath) paths.

Definition existingOf (w : World) (baseDir : string) (paths : list string)
    : list Item :=
  map (itemOf w baseDir) (filter (presentIn w baseDir) paths).

(** The first loop decides protection by membership in the [Set]; this says
    that a set holds the protected paths of [w] and nothing else. *)
Definition holdsProtected (refuse : gset string) (w : World) (baseDir : string)
    (options : Options) : Prop :=
  ∀ canonical, canonical ∈ refuse ↔ canonical ∈ protectedPaths w baseDir options.

(** ** Reading a probe and a move off the platform *)

(** Whether the outcome of spawning a candidate with [--help] makes it the
    helper: it was spawned and exited with status 0 or 1. *)
Definition qualifies (result : Thrown + Subprocess) : bool :=
  match result with
  | inr proc =>
      match exited proc with
      | inr exitCode => (exitCode =? 0)%Z || (exitCode =? 1)%Z
      | inl _ => false
      end
  | inl _ => false
  end.

(** What [cachedTrashCliCommand] holds after the probe has found [found]. *)
Definition cachedAs (found : option string) : Cached :=
  match found with
  | Some command => Command command
  | None => Null
  end.

(** The state after the calls [new], which left the world [w]. *)
Definition after (s : Trash.State World) (w : World) (new : list Call)
    : Trash.State World :=
  {| Trash.world := w;
     Trash.cachedTrashCliCommand := Trash.cachedTrashCliCommand s;
     Trash.calls := Trash.calls s ++ new |}.

(** What moving [src] to [dst] does: the rename; after a cross-device
    failure of it, the copy and then the removal; and no more.  The first
    component is the failure the item ends with, if any. *)
Definition attemptMove (w : World) (src dst : string)
    : option Thrown * World * list Call :=
  match renameSync os w src dst with
  | (None, w1) => (None, w1, [CallRename src dst])
  | (Some error, w1) =>
      if Trash.isCrossDeviceError error then
        match cpSync os w1 src dst with
        | (Some error, w2) => (Some error, w2, [CallRename src dst; CallCp src dst])
        | (None, w2) =>
            match rmSync os w2 src with
            | (failure, w3) =>
                (failure, w3, [CallRename src dst; CallCp src dst; CallRm src])
            end
        end
      else (Some error, w1, [CallRename src dst])
  end.

(** The entry of [errors] for an item that failed with [error]. *)
Definition failureEntry (item : Item) (error : Thrown) : string :=
  "Failed to move " +:+ raw item +:+ " to Trash: " +:+ Trash.formatTrashError error.

(** The sources of the renames among some calls, in order. *)
Definition renameSources (new : list Call) : list string :=
  omap (λ call, match call with CallRename src _ => Some src | _ => None end) new.

(** Every directory of every world holds finitely many proper names. *)
Definition finiteDirectories : Prop :=
  ∀ (w : World) (dir : string),
    ∃ occupied : list string,
      ∀ name, Path.properName name →
              existsSync os w (Path.join [dir; name]) = true →
              name ∈ occupied.

End WithPlatform.
End Batch.

(** * Sample machines *)

Module Samples.

(** A workspace [/work] with two files named [a.txt], a trash directory
    under [/home/u], and no trash program installed. *)
Definition plain : Sim.World := {|
  Sim.workingDirectory := "/work";
  Sim.variables := {[ "HOME" := "/home/u"; "PATH" := "/usr/bin:/bin" ]};
  Sim.clock := 1700;
  Sim.files := {[ "/work" := ""; "/work/a.txt" := "A"; "/work/d/a.txt" := "B";
                  "/work/secrets/key.pem" := "K"; "/home/u/.Trash" := "" ]};
  Sim.otherDevice := [];
  Sim.locked := [];
  Sim.programs := ∅;
|}.

(** The same with two programs installed: [trash-put], whose [--help] exits
    with status 2, and [/usr/bin/trash], whose [--help] exits with status 1
    and which takes the paths it is given. *)
Definition withHelper : Sim.World := {|
  Sim.workingDirectory := Sim.workingDirectory plain;
  Sim.variables := Sim.variables plain;
  Sim.clock := Sim.clock plain;
  Sim.files := Sim.files plain;
  Sim.otherDevice := [];
  Sim.locked := [];
  Sim.programs :=
    {[ "trash-put" := {| Sim.helpStatus := 2; Sim.runStatus := 0;
                         Sim.errorText := ""; Sim.takesPaths := true |};
       "/usr/bin/trash" := {| Sim.helpStatus := 1; Sim.runStatus := 0;
                              Sim.errorText := ""; Sim.takesPaths := true |} ]};
|}.

(** [plain] with a program [trash-put] that fails without a word: it exits
    with status 2, writes nothing, and leaves the paths where they are. *)
Definition silentHelper : Sim.World := {|
  Sim.workingDirectory := Sim.workingDirectory plain;
  Sim.variables := Sim.variables plain;
  Sim.clock := Sim.clock plain;
  Sim.files := Sim.files plain;
  Sim.otherDevice := [];
  Sim.locked := [];
  Sim.programs :=
    {[ "trash-put" := {| Sim.helpStatus := 0; Sim.runStatus := 2;
                         Sim.errorText := ""; Sim.takesPaths := false |} ]};
|}.

(** [plain] with [/work/a.txt] on a second device and [/work/d/a.txt]
    locked. *)
Definition hindered : Sim.World := {|
  Sim.workingDirectory := Sim.workingDirectory plain;
  Sim.variables := Sim.variables plain;
  Sim.clock := Sim.clock plain;
  Sim.files := Sim.files plain;
  Sim.otherDevice := ["/work/a.txt"];
  Sim.locked := ["/work/d/a.txt"];
  Sim.programs := ∅;
|}.

(** The same with the names [a.txt] and [a.txt-1700] taken in the trash. *)
Definition crowded : Sim.World :=
  Sim.withFiles plain
    (<["/home/u/.Trash/a.txt" := "old"]>
       (<["/home/u/.Trash/a.txt-1700" := "older"]> (Sim.files plain))).

(** [plain] with the workspace reachable under the spelling [/work/] too,
    as a directory is. *)
Definition spelled : Sim.World :=
  Sim.withFiles plain (<["/work/" := ""]> (Sim.files plain)).

End Samples.

(** * Facts about strings and paths *)

Module PathFacts.

Lemma append_cons x (a b : string) : String x a +:+ b = String x (a +:+ b).
Proof. reflexivity. Qed.

Lemma append_nil_l (b : string) : "" +:+ b = b.
Proof. reflexivity. Qed.

Lemma append_assoc (a b c : string) : (a +:+ b) +:+ c = a +:+ (b +:+ c).
Proof.
  induction a as [|x a IH]; [reflexivity|].
  rewrite !append_cons, IH. reflexivity.
Qed.

Lemma append_nil_r (a : string) : a +:+ "" = a.
Proof.
  induction a as [|x a IH]; [reflexivity|].
  rewrite append_cons, IH. reflexivity.
Qed.

Lemma append_eq_nil (a b : string) : a +:+ b = "" → a = "" ∧ b = "".
Proof.
  destruct a; [rewrite append_nil_l; auto|].
  rewrite append_cons. discriminate.
Qed.

Lemma split_not_nil sep s : Js.split sep s ≠ [].
Proof.
  destruct s as [|c s]; cbn; [discriminate|].
  destruct (bool_decide (c = sep)); [discriminate|].
  destruct (Js.split sep s); discriminate.
Qed.

Lemma split_cons_other sep c s :
  c ≠ sep →
  ∃ piece pieces,
    Js.split sep s = piece :: pieces
    ∧ Js.split sep (String c s) = String c piece :: pieces.
Proof.
  intros Hc. cbn. rewrite bool_decide_eq_false_2 by exact Hc.
  destruct (Js.split sep s) as [|piece pieces] eqn:Hs.
  - destruct (split_not_nil _ _ Hs).
  - eauto.
Qed.

(** Splitting a string that has a separator in the middle. *)
Lemma split_append sep a b :
  Js.split sep (a +:+ String sep b) = Js.split sep a ++ Js.split sep b.
Proof.
  induction a as [|c a IH].
  - rewrite append_nil_l. cbn [Js.split].
    rewrite bool_decide_eq_true_2 by reflexivity. reflexivity.
  - rewrite append_cons. cbn [Js.split]. rewrite IH.
    destruct (bool_decide (c = sep)); [reflexivity|].
    destruct (Js.split sep a) as [|piece pieces] eqn:Ha.
    + destruct (split_not_nil _ _ Ha).
    + reflexivity.
Qed.

Lemma sepFree_nil : Path.sepFree "".
Proof. reflexivity. Qed.

Lemma sepFree_cons c s :
  Path.sepFree (String c s) ↔ c ≠ "/"%char ∧ Path.sepFree s.
Proof.
  unfold Path.sepFree. cbn.
  destruct (bool_decide_reflect (c = "/"%char)) as [->|Hc].
  - split; [discriminate|]. intros [Hne _]. destruct Hne. reflexivity.
  - destruct (Js.split "/" s) as [|piece pieces] eqn:Hs.
    + destruct (split_not_nil _ _ Hs).
    + split.
      * intros [= -> ->]. split; [exact Hc|reflexivity].
      * intros [_ [= -> ->]]. reflexivity.
Qed.

Lemma sepFree_append a b :
  Path.sepFree a → Path.sepFree b → Path.sepFree (a +:+ b).
Proof.
  intros Ha Hb. induction a as [|c a IH]; [exact Hb|].
  apply sepFree_cons in Ha as [Hc Ha].
  rewrite append_cons. apply sepFree_cons. split; [exact Hc|]. apply IH, Ha.
Qed.

(** The pieces of a split hold no separator. *)
Lemma split_pieces_sepFree s :
  Forall Path.sepFree (Js.split "/" s).
Proof.
  induction s as [|c s IH]; cbn.
  - constructor; [reflexivity|constructor].
  - destruct (bool_decide_reflect (c = "/"%char)) as [->|Hc].
    + constructor; [reflexivity|exact IH].
    + destruct (Js.split "/" s) as [|piece pieces].
      * constructor; [|constructor]. apply sepFree_cons. split; [exact Hc|reflexivity].
      * apply Forall_cons in IH as [Hp Hps].
        constructor; [|exact Hps]. apply sepFree_cons. split; assumption.
Qed.

Lemma sepFree_not_absolute s : Path.sepFree s → Path.isAbsolute s = false.
Proof.
  destruct s as [|c s]; [reflexivity|].
  intros [Hc _]%sepFree_cons. cbn. apply bool_decide_eq_false_2. exact Hc.
Qed.

Lemma sepFree_endsWith s : Path.sepFree s → Js.endsWith s "/" = false.
Proof.
  induction s as [|c s IH]; [reflexivity|].
  intros [Hc Hs]%sepFree_cons. cbn.
  destruct s; [apply bool_decide_eq_false_2; exact Hc|].
  apply IH, Hs.
Qed.

Lemma endsWith_cons x s c : s ≠ "" → Js.endsWith (String x s) c = Js.endsWith s c.
Proof. destruct s; [intros H; destruct H; reflexivity|reflexivity]. Qed.

Lemma endsWith_append a b c : b ≠ "" → Js.endsWith (a +:+ b) c = Js.endsWith b c.
Proof.
  intros Hb. induction a as [|x a IH]; [reflexivity|].
  rewrite append_cons. cbn [Js.endsWith].
  destruct (a +:+ b) eqn:Hab.
  - apply append_eq_nil in Hab as [_ ->]. destruct Hb. reflexivity.
  - exact IH.
Qed.

Lemma isAbsolute_append a b : a ≠ "" → Path.isAbsolute (a +:+ b) = Path.isAbsolute a.
Proof. destruct a; [intros H; destruct H; reflexivity|reflexivity]. Qed.

Lemma joinWith_snoc sep pieces piece :
  Js.joinWith sep (pieces ++ [piece])
  = match pieces with
    | [] => piece
    | _ => Js.joinWith sep pieces +:+ sep +:+ piece
    end.
Proof.
  induction pieces as [|x pieces IH]; [reflexivity|].
  cbn [app Js.joinWith]. rewrite IH.
  destruct pieces as [|y pieces]; cbn [app]; [reflexivity|].
  rewrite !append_assoc. reflexivity.
Qed.

Lemma normalizeSegment_proper allow rstack name :
  Path.properName name →
  Path.normalizeSegment allow rstack name = name :: rstack.
Proof.
  intros (_ & Hne & Hdot & Hdots). unfold Path.normalizeSegment.
  apply String.eqb_neq in Hne, Hdot, Hdots.
  rewrite Hne, Hdot, Hdots. reflexivity.
Qed.

(** [join] puts a proper name right behind the normalized directory. *)
Lemma join_entry dir name :
  Path.properName name →
  Path.join [dir; name] = Path.entryPrefix dir +:+ name.
Proof.
  intros Hname. pose proof Hname as (Hfree & Hne & _).
  unfold Path.join, Path.entryPrefix.
  rewrite filter_cons. destruct (decide (dir ≠ "")) as [Hdir|Hdir].
  - rewrite filter_cons_True, filter_nil by exact Hne.
    apply String.eqb_neq in Hdir as Hdirb. rewrite Hdirb.
    cbn [Js.joinWith]. unfold Path.normalize.
    assert (dir +:+ "/" +:+ name ≠ "") as Hwhole.
    { intros [Hd _]%append_eq_nil. apply Hdir, Hd. }
    apply String.eqb_neq in Hwhole as ->.
    rewrite isAbsolute_append by exact Hdir.
    replace (dir +:+ "/" +:+ name) with (dir +:+ String "/" name) at 1 2 by reflexivity.
    rewrite (endsWith_append dir (String "/" name)) by discriminate.
    assert (Js.endsWith (String "/" name) "/" = false) as ->.
    { rewrite endsWith_cons by exact Hne. apply sepFree_endsWith, Hfree. }
    unfold Path.normalizeString.
    replace (dir +:+ "/" +:+ name) with (dir +:+ String "/" name) by reflexivity.
    rewrite split_append, Hfree, fold_left_app. cbn [fold_left].
    rewrite normalizeSegment_proper by exact Hname.
    cbn [rev]. rewrite joinWith_snoc.
    set (kept := rev (fold_left _ _ _)).
    assert (∀ front, front +:+ name ≠ "") as Hbody.
    { intros front [_ Hn]%append_eq_nil. apply Hne, Hn. }
    destruct kept as [|k kept'].
    + apply String.eqb_neq in Hne as ->.
      destruct (Path.isAbsolute dir); reflexivity.
    + rewrite <- append_assoc.
      pose proof (Hbody (Js.joinWith "/" (k :: kept') +:+ "/")) as Hb.
      apply String.eqb_neq in Hb as ->.
      destruct (Path.isAbsolute dir); [|reflexivity].
      cbn [String.append]. reflexivity.
  - apply dec_stable in Hdir as Hempty.
    rewrite filter_cons_True, filter_nil by exact Hne. rewrite Hempty.
    cbn [Js.joinWith String.eqb]. unfold Path.normalize.
    apply String.eqb_neq in Hne as Hneb. rewrite Hneb.
    rewrite sepFree_not_absolute, sepFree_endsWith by exact Hfree.
    unfold Path.normalizeString. rewrite Hfree. cbn [fold_left].
    rewrite normalizeSegment_proper by exact Hname.
    cbn. rewrite Hneb. reflexivity.
Qed.

(** Two proper names that [join] sends to the same path are the same. *)
Lemma join_entry_inj dir name1 name2 :
  Path.properName name1 → Path.properName name2 →
  Path.join [dir; name1] = Path.join [dir; name2] → name1 = name2.
Proof.
  intros H1 H2. rewrite !join_entry by assumption.
  apply String.app_inj.
Qed.

Lemma sliceFrom_append a b : Js.sliceFrom (String.length a) (a +:+ b) = b.
Proof.
  induction a as [|x a IH]; [destruct b; reflexivity|].
  rewrite append_cons. exact IH.
Qed.

(** *** Names *)

Lemma basename_sepFree path : Path.sepFree (Path.basename path).
Proof.
  unfold Path.basename.
  destruct (last (filter (λ segment, segment ≠ "") (Js.split "/" path)))
    as [segment|] eqn:Hlast; [|reflexivity].
  apply last_Some_elem_of, list_elem_of_filter in Hlast as [_ Hin].
  pose proof (split_pieces_sepFree path) as Hall.
  rewrite Forall_forall in Hall. apply Hall, Hin.
Qed.

Lemma pretty_N_go_sepFree x s : Path.sepFree s → Path.sepFree (pretty_N_go x s).
Proof.
  revert s. induction (N.lt_wf_0 x) as [x _ IH]; intros s Hs.
  destruct (decide (x = 0%N)) as [->|Hx]; [rewrite pretty_N_go_0; exact Hs|].
  rewrite pretty_N_go_step by lia.
  apply IH; [apply N.div_lt; lia|].
  apply sepFree_cons. split; [|exact Hs].
  unfold pretty_N_char. repeat case_match; discriminate.
Qed.

Lemma pretty_N_sepFree (x : N) : Path.sepFree (pretty x).
Proof.
  unfold pretty, pretty_N. case_decide; [reflexivity|].
  apply pretty_N_go_sepFree. reflexivity.
Qed.

Lemma pretty_Z_sepFree (x : Z) : Path.sepFree (pretty x).
Proof.
  destruct x as [|p|p]; [reflexivity|apply (pretty_N_sepFree (Npos p))|].
  change (pretty (Z.neg p)) with ("-" +:+ pretty (Npos p)).
  apply sepFree_append; [reflexivity|apply pretty_N_sepFree].
Qed.

Lemma dashed_not_special (front back : string) :
  let name := front +:+ "-" +:+ back in
  name ≠ "" ∧ name ≠ "." ∧ name ≠ "..".
Proof.
  destruct front as [|a [|b [|c front]]];
    rewrite ?append_cons, ?append_nil_l; cbn zeta;
    repeat split; intros Heq; inversion Heq.
Qed.

Lemma disambiguated_proper baseName timestamp attempt :
  Path.sepFree baseName →
  Path.properName (Trash.disambiguated baseName timestamp attempt).
Proof.
  intros Hbase. unfold Trash.disambiguated. split.
  - apply sepFree_append; [exact Hbase|].
    apply sepFree_append; [reflexivity|].
    apply sepFree_append; [apply pretty_Z_sepFree|].
    destruct (0 <? attempt)%N; [|reflexivity].
    apply sepFree_append; [reflexivity|apply pretty_N_sepFree].
  - apply dashed_not_special.
Qed.

Lemma disambiguated_inj baseName timestamp attempt1 attempt2 :
  Trash.disambiguated baseName timestamp attempt1
  = Trash.disambiguated baseName timestamp attempt2 →
  attempt1 = attempt2.
Proof.
  unfold Trash.disambiguated. intros Heq.
  do 3 apply String.app_inj in Heq.
  destruct (N.ltb_spec 0 attempt1), (N.ltb_spec 0 attempt2).
  - apply String.app_inj in Heq. apply (inj pretty), Heq.
  - rewrite append_cons in Heq. discriminate.
  - rewrite append_cons in Heq. discriminate.
  - lia.
Qed.

Lemma length_append (a b : string) :
  String.length (a +:+ b) = (String.length a + String.length b)%nat.
Proof.
  induction a as [|x a IH]; [reflexivity|].
  rewrite append_cons. cbn [String.length]. rewrite IH. reflexivity.
Qed.

(** The names tried are pairwise different. *)
Lemma trashName_inj baseName timestamp k1 k2 :
  Naming.trashName baseName timestamp k1 = Naming.trashName baseName timestamp k2 →
  k1 = k2.
Proof.
  assert (∀ attempt, baseName ≠ Trash.disambiguated baseName timestamp attempt) as Hlonger.
  { intros attempt Heq. apply (f_equal String.length) in Heq.
    unfold Trash.disambiguated in Heq. rewrite !length_append in Heq.
    cbn [String.length] in Heq. lia. }
  destruct k1 as [|j1], k2 as [|j2]; cbn [Naming.trashName]; intros Heq.
  - reflexivity.
  - destruct (Hlonger _ Heq).
  - destruct (Hlonger _ (eq_sym Heq)).
  - apply disambiguated_inj in Heq. lia.
Qed.

End PathFacts.

(** * Facts about the concrete platform *)

Module SimFacts.

(** The store is finite: the proper names taken in a directory are among
    [Sim.entryNames]. *)
Lemma entries_listed (w : Sim.World) dir name :
  Path.properName name →
  existsSync Sim.platform w (Path.join [dir; name]) = true →
  name ∈ Sim.entryNames w dir.
Proof.
  intros Hname Hexists. cbn in Hexists.
  apply bool_decide_eq_true_1, elem_of_dom, elem_of_elements in Hexists.
  unfold Sim.entryNames. apply list_elem_of_fmap.
  exists (Path.join [dir; name]). split; [|exact Hexists].
  rewrite PathFacts.join_entry by exact Hname.
  symmetry. apply PathFacts.sliceFrom_append.
Qed.

Lemma crossing_differ (w : Sim.World) src dst :
  Sim.crossesDevices w src dst = true → src ≠ dst.
Proof.
  unfold Sim.crossesDevices. intros Hcross ->.
  rewrite xorb_nilpotent in Hcross. discriminate.
Qed.

(** On this machine a move that ends without failure leaves the content of
    the source at the destination. *)
Lemma move_lands (w w' : Sim.World) src dst new :
  Batch.attemptMove Sim.platform w src dst = (None, w', new) →
  ∃ content, Sim.files w !! src = Some content ∧ Sim.files w' !! dst = Some content.
Proof.
  unfold Batch.attemptMove. cbn [renameSync cpSync rmSync Sim.platform].
  unfold Sim.rename, Sim.cp, Sim.rm.
  destruct (Sim.files w !! src) as [content|] eqn:Hsrc; [|discriminate].
  destruct (bool_decide (src ∈ Sim.locked w)); [discriminate|].
  destruct (Sim.crossesDevices w src dst) eqn:Hcross.
  - cbn. rewrite Hsrc. intros [= <- _]. exists content. split; [reflexivity|].
    cbn. rewrite lookup_delete_ne by (apply crossing_differ in Hcross; exact Hcross).
    apply lookup_insert_eq.
  - intros [= <- _]. exists content. split; [reflexivity|].
    cbn. apply lookup_insert_eq.
Qed.


(** On this machine, moving an unlocked source across devices copies it and
    removes it: the content is at the destination and the source is gone. *)
Lemma cross_device_move (w : Sim.World) src dst content :
  Sim.files w !! src = Some content →
  src ∉ Sim.locked w →
  Sim.crossesDevices w src dst = true →
  ∃ w',
    Batch.attemptMove Sim.platform w src dst
    = (None, w', [CallRename src dst; CallCp src dst; CallRm src])
    ∧ Sim.files w' !! dst = Some content
    ∧ Sim.files w' !! src = None.
Proof.
  intros Hsrc Hfree Hcross.
  unfold Batch.attemptMove. cbn [renameSync cpSync rmSync Sim.platform].
  unfold Sim.rename, Sim.cp, Sim.rm.
  rewrite Hsrc, bool_decide_eq_false_2, Hcross by exact Hfree.
  cbn. rewrite Hsrc. eexists. split; [reflexivity|]. cbn. split.
  - rewrite lookup_delete_ne by (apply crossing_differ in Hcross; exact Hcross).
    apply lookup_insert_eq.
  - apply lookup_delete_eq.
Qed.

End SimFacts.

(** * Properties *)

Module TrashFacts.
Import Trash Batch.
Local Open Scope trash_scope.
Local Open Scope nat_scope.

(** Unfolds the plumbing of computations, so that what is left is a case
    analysis on what the platform answers. *)
Ltac unfold_computation :=
  unfold existsSyncM, renameSyncM, cpSyncM, rmSyncM, spawnM, getCached, setCached;
  unfold bind, tryCatch, await, readWorld, callWorld, voidResult;
  unfold ret, throw, diverge.

Section WithPlatform.

Context {World : Type} (os : Platform World).

Local Abbreviation State := (Trash.State World).
Local Abbreviation absoluteOf := (Batch.absoluteOf os).
Local Abbreviation canonicalOf := (Batch.canonicalOf os).
Local Abbreviation protectedPaths := (Batch.protectedPaths os).
Local Abbreviation isProtected := (Batch.isProtected os).
Local Abbreviation presentIn := (Batch.presentIn os).
Local Abbreviation itemOf := (Batch.itemOf os).
Local Abbreviation missingOf := (Batch.missingOf os).
Local Abbreviation existingOf := (Batch.existingOf os).
Local Abbreviation holdsProtected := (Batch.holdsProtected os).
Local Abbreviation attemptMove := (Batch.attemptMove os).
Local Abbreviation after := (@Batch.after World).
Local Abbreviation finiteDirectories := (Batch.finiteDirectories os).

Lemma resolvePath_reads baseDir rawPath (s : State) :
  resolvePath os baseDir rawPath s = (Returned (absoluteOf (world s) baseDir rawPath), s).
Proof.
  unfold resolvePath, absoluteOf.
  destruct (Js.startsWith rawPath "/"); reflexivity.
Qed.

Lemma refuseCanonicals_reads baseDir options (s : State) :
  refuseCanonicals os baseDir options s
  = (Returned (list_to_set (protectedPaths (world s) baseDir options)), s).
Proof. reflexivity. Qed.

Lemma refuseCanonicals_holds (w : World) baseDir options :
  holdsProtected (list_to_set (protectedPaths w baseDir options)) w baseDir options.
Proof. intros canonical. apply elem_of_list_to_set. Qed.

(** One turn of the first loop, by cases. *)
Lemma classifyPaths_step refuse baseDir options rawPath rest missing existing (s : State) :
  holdsProtected refuse (world s) baseDir options →
  classifyPaths os refuse baseDir options (rawPath :: rest) missing existing s
  = if decide (isProtected (world s) baseDir options rawPath)
    then (Returned (Refused rawPath), s)
    else if decide (presentIn (world s) baseDir rawPath)
    then classifyPaths os refuse baseDir options rest missing
           (existing ++ [itemOf (world s) baseDir rawPath]) s
    else classifyPaths os refuse baseDir options rest
           (if allowMissing options then missing else missing ++ [rawPath])
           existing s.
Proof.
  intros Hrefuse. cbn [classifyPaths].
  unfold bind at 1. rewrite resolvePath_reads.
  destruct (decide (isProtected (world s) baseDir options rawPath)) as [Hbad|Hfree].
  - rewrite bool_decide_eq_true_2 by (apply Hrefuse; exact Hbad). reflexivity.
  - rewrite bool_decide_eq_false_2
      by (intros Hin; apply Hfree, Hrefuse, Hin).
    unfold bind, existsSyncM, readWorld.
    destruct (decide (presentIn (world s) baseDir rawPath)) as [Hpresent|Habsent].
    + unfold presentIn in Hpresent. rewrite Hpresent. reflexivity.
    + unfold presentIn in Habsent. apply not_true_is_false in Habsent.
      rewrite Habsent. cbn [negb].
      destruct (allowMissing options); reflexivity.
Qed.

(** The first loop on a batch without protected path. *)
Lemma classifyPaths_sorted refuse baseDir options paths (s : State) :
  holdsProtected refuse (world s) baseDir options →
  ∀ missing existing,
    Forall (λ rawPath, ¬ isProtected (world s) baseDir options rawPath) paths →
    classifyPaths os refuse baseDir options paths missing existing s
    = (Returned
         (Sorted
            (missing ++ missingOf (world s) baseDir options paths)
            (existing ++ existingOf (world s) baseDir paths)),
       s).
Proof.
  intros Hrefuse.
  induction paths as [|rawPath rest IH]; intros missing existing Hfree.
  - unfold missingOf, existingOf. cbn.
    destruct (allowMissing options); rewrite !app_nil_r; reflexivity.
  - apply Forall_cons in Hfree as [Hraw Hrest].
    rewrite classifyPaths_step by exact Hrefuse.
    rewrite decide_False by exact Hraw.
    unfold missingOf, existingOf in *.
    destruct (decide (presentIn (world s) baseDir rawPath)) as [Hpresent|Habsent].
    + rewrite IH by assumption.
      rewrite (filter_cons_True (presentIn (world s) baseDir)) by exact Hpresent.
      rewrite fmap_cons, <- app_assoc.
      destruct (allowMissing options); [reflexivity|].
      rewrite (filter_cons_False (λ p, ¬ presentIn (world s) baseDir p))
        by (intros Hn; apply Hn; exact Hpresent).
      reflexivity.
    + rewrite IH by assumption.
      rewrite (filter_cons_False (presentIn (world s) baseDir)) by exact Habsent.
      destruct (allowMissing options); [reflexivity|].
      rewrite (filter_cons_True (λ p, ¬ presentIn (world s) baseDir p))
        by exact Habsent.
      rewrite <- app_assoc. reflexivity.
Qed.

(** The first loop on a batch with a protected path: it returns at the
    first one, whatever it has sorted so far. *)
Lemma classifyPaths_refused refuse baseDir options before offending after (s : State) :
  holdsProtected refuse (world s) baseDir options →
  ∀ missing existing,
    Forall (λ rawPath, ¬ isProtected (world s) baseDir options rawPath) before →
    isProtected (world s) baseDir options offending →
    classifyPaths os refuse baseDir options (before ++ offending :: after)
      missing existing s
    = (Returned (Refused offending), s).
Proof.
  intros Hrefuse.
  induction before as [|rawPath rest IH]; intros missing existing Hfree Hbad.
  - cbn [app]. rewrite classifyPaths_step by exact Hrefuse.
    rewrite decide_True by exact Hbad. reflexivity.
  - apply Forall_cons in Hfree as [Hraw Hrest].
    rewrite <- app_comm_cons, classifyPaths_step by exact Hrefuse.
    rewrite decide_False by exact Hraw.
    destruct (decide (presentIn (world s) baseDir rawPath)); apply IH; assumption.
Qed.

(** A batch with a protected path splits at its first one. *)
Lemma first_protected (w : World) baseDir options paths rawPath :
  rawPath ∈ paths →
  isProtected w baseDir options rawPath →
  ∃ before offending after,
    paths = before ++ offending :: after
    ∧ Forall (λ p, ¬ isProtected w baseDir options p) before
    ∧ isProtected w baseDir options offending.
Proof.
  induction paths as [|p rest IH]; intros Hin Hbad.
  - inversion Hin.
  - destruct (decide (isProtected w baseDir options p)) as [Hp|Hp].
    + exists [], p, rest. split; [reflexivity|]. split; [constructor|exact Hp].
    + apply elem_of_cons in Hin as [->|Hin]; [contradiction|].
      destruct (IH Hin Hbad) as (before & offending & after & -> & Hfree & Hoff).
      exists (p :: before), offending, after.
      split; [reflexivity|]. split; [constructor; assumption|exact Hoff].
Qed.


(** ** The probe *)

Lemma probeCandidates_nil (s : State) :
  probeCandidates os [] s
  = (Returned None,
     {| world := world s; cachedTrashCliCommand := Null; calls := calls s |}).
Proof. reflexivity. Qed.

Lemma probeCandidates_cons candidate rest (s : State) :
  probeCandidates os (candidate :: rest) s
  = let '(result, w) := spawn os (world s) [candidate; "--help"] Ignore in
    if qualifies result then
      (Returned (Some candidate),
       {| world := w;
          cachedTrashCliCommand := Command candidate;
          calls := calls s ++ [CallSpawn [candidate; "--help"]] |})
    else probeCandidates os rest (after s w [CallSpawn [candidate; "--help"]]).
Proof.
  cbn [probeCandidates]. unfold_computation. unfold qualifies.
  destruct (spawn os (world s) [candidate; "--help"] Ignore) as [[error|proc] w];
    [reflexivity|].
  destruct (exited proc) as [error|exitCode]; [reflexivity|].
  destruct ((exitCode =? 0)%Z || (exitCode =? 1)%Z); reflexivity.
Qed.

(** The probing loop returns, with its finding cached. *)
Lemma probeCandidates_returns candidates :
  ∀ s : State,
    ∃ found s',
      probeCandidates os candidates s = (Returned found, s')
      ∧ cachedTrashCliCommand s' = cachedAs found
      ∧ (∀ command, found = Some command → command ∈ candidates).
Proof.
  induction candidates as [|candidate rest IH]; intros s.
  - eexists None, _. rewrite probeCandidates_nil.
    split; [reflexivity|]. split; [reflexivity|discriminate].
  - rewrite probeCandidates_cons.
    destruct (spawn os (world s) [candidate; "--help"] Ignore) as [result w].
    destruct (qualifies result).
    + eexists (Some candidate), _. split; [reflexivity|]. split; [reflexivity|].
      intros command [= <-]. apply list_elem_of_here.
    + destruct (IH (after s w [CallSpawn [candidate; "--help"]]))
        as (found & s' & Hrun & Hcached & Hin).
      exists found, s'. split; [exact Hrun|]. split; [exact Hcached|].
      intros command Hfound. apply list_elem_of_further, Hin, Hfound.
Qed.

Lemma findTrashCliCommand_cold (s : State) :
  cachedTrashCliCommand s = Undefined →
  findTrashCliCommand os s
  = probeCandidates os
      (candidatePaths (searchDirs (env os (world s) "PATH")
                                  (env os (world s) "HOMEBREW_PREFIX"))) s.
Proof.
  intros Hcold. unfold findTrashCliCommand, bind, getCached, readWorld.
  rewrite Hcold. reflexivity.
Qed.

Lemma findTrashCliCommand_warm (s : State) found :
  cachedTrashCliCommand s = cachedAs found →
  findTrashCliCommand os s = (Returned found, s).
Proof.
  intros Hwarm. unfold findTrashCliCommand, bind, getCached.
  rewrite Hwarm. destruct found; reflexivity.
Qed.

(** C8.  The probe never throws and always returns: whatever the
    environment and whatever the spawns do, [findTrashCliCommand] returns a
    command or [null], and that value is then cached; every later call, in
    whatever world, returns the cached value and leaves the state alone, so
    it spawns nothing.  A cold probe runs the loop over the candidate paths;
    the loop takes the first candidate that [qualifies], which is the case
    exactly when the spawn succeeded and the exit status is 0 or 1, and
    caches [null] when it runs out of candidates. *)
Theorem findTrashCliCommand_probe :
  (∀ s : State,
     ∃ found s',
       findTrashCliCommand os s = (Returned found, s')
       ∧ cachedTrashCliCommand s' = cachedAs found
       ∧ ∀ later : State,
           cachedTrashCliCommand later = cachedTrashCliCommand s' →
           findTrashCliCommand os later = (Returned found, later))
  ∧ (∀ s : State,
       cachedTrashCliCommand s = Undefined →
       findTrashCliCommand os s
       = probeCandidates os
           (candidatePaths (searchDirs (env os (world s) "PATH")
                                       (env os (world s) "HOMEBREW_PREFIX"))) s)
  ∧ (∀ candidate rest (s : State),
       probeCandidates os (candidate :: rest) s
       = let '(result, w) := spawn os (world s) [candidate; "--help"] Ignore in
         if qualifies result then
           (Returned (Some candidate),
            {| world := w;
               cachedTrashCliCommand := Command candidate;
               calls := calls s ++ [CallSpawn [candidate; "--help"]] |})
         else probeCandidates os rest (after s w [CallSpawn [candidate; "--help"]]))
  ∧ (∀ s : State,
       probeCandidates os [] s
       = (Returned None,
          {| world := world s; cachedTrashCliCommand := Null; calls := calls s |}))
  ∧ (∀ result,
       qualifies result = true
       ↔ ∃ proc exitCode,
           result = inr proc ∧ exited proc = inr exitCode
           ∧ (exitCode = 0 ∨ exitCode = 1)%Z).
Proof.
  split; [|split; [exact findTrashCliCommand_cold|
           split; [exact probeCandidates_cons|split; [exact probeCandidates_nil|]]]].
  - intros s. destruct (cachedTrashCliCommand s) eqn:Hcached.
    + rewrite findTrashCliCommand_cold by exact Hcached.
      destruct (probeCandidates_returns
                  (candidatePaths (searchDirs (env os (world s) "PATH")
                                              (env os (world s) "HOMEBREW_PREFIX"))) s)
        as (found & s' & Hrun & Hcached' & _).
      exists found, s'. split; [exact Hrun|]. split; [exact Hcached'|].
      intros later Hlater. apply findTrashCliCommand_warm.
      rewrite Hlater. exact Hcached'.
    + exists None, s. split; [apply findTrashCliCommand_warm, Hcached|].
      split; [exact Hcached|].
      intros later Hlater. apply findTrashCliCommand_warm.
      rewrite Hlater. exact Hcached.
    + exists (Some command), s. split; [apply findTrashCliCommand_warm, Hcached|].
      split; [exact Hcached|].
      intros later Hlater. apply findTrashCliCommand_warm.
      rewrite Hlater. exact Hcached.
  - intros result. unfold qualifies. split.
    + destruct result as [error|proc]; [discriminate|].
      destruct (exited proc) as [error|exitCode] eqn:Hexit; [discriminate|].
      intros Hq. exists proc, exitCode. split; [reflexivity|]. split; [exact Hexit|].
      apply orb_true_iff in Hq as [Hq|Hq]; apply Z.eqb_eq in Hq; auto.
    + intros (proc & exitCode & -> & -> & [->| ->]); reflexivity.
Qed.

(** ** The destination loop *)

(** The least place at which a test fails, below a place where it fails. *)
Lemma least_failure (test : nat → bool) (n : nat) :
  test n = false →
  ∃ k, k ≤ n ∧ test k = false ∧ ∀ j, j < k → test j = true.
Proof.
  induction (lt_wf n) as [n _ IH]. intros Hn.
  destruct (decide (Forall (λ j, test j = true) (seq 0 n))) as [Hall|Hsome].
  - exists n. split; [lia|]. split; [exact Hn|].
    intros j Hj. rewrite Forall_forall in Hall.
    apply Hall, elem_of_seq. lia.
  - apply not_Forall_Exists, Exists_exists in Hsome as (j & Hj & Hfalse); [|apply _].
    apply elem_of_seq in Hj. apply not_true_is_false in Hfalse.
    destruct (IH j ltac:(lia) Hfalse) as (k & Hk & Hfree & Hbelow).
    exists k. split; [lia|]. split; assumption.
Qed.

Section Destination.

Variables (trashDir baseName : string) (timestamp : Z).

Local Abbreviation candidateAt := (Naming.candidateAt trashDir baseName timestamp).

(** The loop entered at place [k] with the places [k .. k+n-1] taken and the
    place [k+n] free returns the candidate at [k+n], after [n] turns. *)
Lemma buildTrashTargetLoop_returns (s : State) n :
  ∀ fuel k,
    n ≤ fuel →
    (∀ j, k ≤ j < k + n → existsSync os (world s) (candidateAt j) = true) →
    existsSync os (world s) (candidateAt (k + n)) = false →
    buildTrashTargetLoop os fuel trashDir baseName timestamp (N.of_nat k) (candidateAt k) s
    = (Returned (candidateAt (k + n)), s).
Proof.
  induction n as [|n IH]; intros fuel k Hfuel Htaken Hfree.
  - rewrite Nat.add_0_r in Hfree |- *.
    destruct fuel; cbn [buildTrashTargetLoop];
      unfold bind, existsSyncM, readWorld; rewrite Hfree; reflexivity.
  - destruct fuel as [|fuel]; [lia|]. cbn [buildTrashTargetLoop].
    unfold bind at 1. unfold existsSyncM, readWorld.
    rewrite (Htaken k) by lia.
    replace (N.of_nat k + 1)%N with (N.of_nat (S k)) by lia.
    change (Path.join [trashDir; disambiguated baseName timestamp (N.of_nat k)])
      with (candidateAt (S k)).
    rewrite (IH fuel (S k)).
    + rewrite Nat.add_succ_r. reflexivity.
    + lia.
    + intros j Hj. apply Htaken. lia.
    + rewrite Nat.add_succ_l, <- Nat.add_succ_r. exact Hfree.
Qed.

(** The loop whose fuel is spent on taken places is still running. *)
Lemma buildTrashTargetLoop_diverges (s : State) fuel :
  ∀ k,
    (∀ j, k ≤ j ≤ k + fuel → existsSync os (world s) (candidateAt j) = true) →
    buildTrashTargetLoop os fuel trashDir baseName timestamp (N.of_nat k) (candidateAt k) s
    = (Diverged, s).
Proof.
  induction fuel as [|fuel IH]; intros k Htaken; cbn [buildTrashTargetLoop];
    unfold bind at 1; unfold existsSyncM, readWorld;
    rewrite (Htaken k) by lia; [reflexivity|].
  replace (N.of_nat k + 1)%N with (N.of_nat (S k)) by lia.
  apply (IH (S k)). intros j Hj. apply Htaken. lia.
Qed.

(** Whatever the fuel, the loop entered at place [k] behind taken places
    leaves the state alone, and either is still running or returns the
    first free candidate. *)
Lemma buildTrashTargetLoop_outcome (s : State) fuel :
  ∀ k,
    (∀ j, j < k → existsSync os (world s) (candidateAt j) = true) →
    ∃ outcome,
      buildTrashTargetLoop os fuel trashDir baseName timestamp (N.of_nat k)
        (candidateAt k) s = (outcome, s)
      ∧ (outcome = Diverged
         ∨ ∃ n, outcome = Returned (candidateAt n)
                ∧ existsSync os (world s) (candidateAt n) = false
                ∧ ∀ j, j < n → existsSync os (world s) (candidateAt j) = true).
Proof.
  induction fuel as [|fuel IH]; intros k Hbelow; cbn [buildTrashTargetLoop];
    unfold bind at 1; unfold existsSyncM, readWorld;
    destruct (existsSync os (world s) (candidateAt k)) eqn:Hk.
  - exists Diverged. split; [reflexivity|left; reflexivity].
  - exists (Returned (candidateAt k)). split; [reflexivity|]. right. exists k. auto.
  - replace (N.of_nat k + 1)%N with (N.of_nat (S k)) by lia.
    apply (IH (S k)). intros j Hj.
    destruct (decide (j = k)) as [->|Hne]; [exact Hk|apply Hbelow; lia].
  - exists (Returned (candidateAt k)). split; [reflexivity|]. right. exists k. auto.
Qed.

End Destination.

Lemma buildTrashTarget_unfold fuel trashDir absolutePath (s : State) :
  buildTrashTarget os fuel trashDir absolutePath s
  = buildTrashTargetLoop os fuel trashDir (Path.basename absolutePath)
      (dateNow os (world s)) (N.of_nat 0)
      (Naming.candidateAt trashDir (Path.basename absolutePath) (dateNow os (world s)) 0) s.
Proof. reflexivity. Qed.

(** In a directory where the names of [occupied] are the only proper names
    taken, one of the first [length occupied + 2] candidates is free. *)
Lemma free_candidate (w : World) trashDir absolutePath (occupied : list string) :
  (∀ name, Path.properName name →
           existsSync os w (Path.join [trashDir; name]) = true →
           name ∈ occupied) →
  ∃ k, k ≤ S (List.length occupied)
       ∧ existsSync os w
           (Naming.candidateAt trashDir (Path.basename absolutePath) (dateNow os w) k)
         = false
       ∧ ∀ j, j < k →
           existsSync os w
             (Naming.candidateAt trashDir (Path.basename absolutePath) (dateNow os w) j)
           = true.
Proof.
  intros Hocc.
  set (baseName := Path.basename absolutePath). set (timestamp := dateNow os w).
  set (test := λ k, existsSync os w (Naming.candidateAt trashDir baseName timestamp k)).
  assert (∃ n, n ≤ S (List.length occupied) ∧ test n = false) as (n & Hn & Hfree).
  { destruct (decide (Forall (λ j, test (S j) = true) (seq 0 (S (List.length occupied)))))
      as [Hall|Hsome].
    - exfalso.
      set (names := (λ j, disambiguated baseName timestamp (N.of_nat j))
                    <$> seq 0 (S (List.length occupied))).
      assert (NoDup names) as Hnodup.
      { apply NoDup_fmap_2; [|apply NoDup_seq].
        intros j1 j2 Heq. apply PathFacts.disambiguated_inj in Heq. lia. }
      assert (names ⊆ occupied) as Hsub.
      { intros name (j & -> & Hj)%list_elem_of_fmap.
        rewrite Forall_forall in Hall. specialize (Hall j Hj).
        apply Hocc; [|exact Hall].
        apply PathFacts.disambiguated_proper, PathFacts.basename_sepFree. }
      pose proof (submseteq_length _ _ (NoDup_submseteq _ _ Hnodup Hsub)) as Hlen.
      unfold names in Hlen. rewrite length_fmap, length_seq in Hlen. lia.
    - apply not_Forall_Exists, Exists_exists in Hsome as (j & Hj & Hfalse); [|apply _].
      apply elem_of_seq in Hj. apply not_true_is_false in Hfalse.
      exists (S j). split; [lia|exact Hfalse]. }
  destruct (least_failure test n Hfree) as (k & Hk & Hkfree & Hbelow).
  exists k. split; [lia|]. split; assumption.
Qed.

Lemma buildTrashTarget_outcome fuel trashDir absolutePath (s : State) :
  ∃ outcome,
    buildTrashTarget os fuel trashDir absolutePath s = (outcome, s)
    ∧ (outcome = Diverged
       ∨ ∃ k,
           let candidateAt :=
             Naming.candidateAt trashDir (Path.basename absolutePath)
               (dateNow os (world s)) in
           outcome = Returned (candidateAt k)
           ∧ existsSync os (world s) (candidateAt k) = false
           ∧ ∀ j, j < k → existsSync os (world s) (candidateAt j) = true).
Proof.
  rewrite buildTrashTarget_unfold.
  apply (buildTrashTargetLoop_outcome _ _ _ s fuel 0). intros j Hj. lia.
Qed.

(** With fuel above the number of names taken, [buildTrashTarget] returns a
    path that does not exist. *)
Lemma buildTrashTarget_returns trashDir absolutePath (s : State)
    (occupied : list string) :
  (∀ name, Path.properName name →
           existsSync os (world s) (Path.join [trashDir; name]) = true →
           name ∈ occupied) →
  ∃ target,
    (∀ fuel, S (List.length occupied) ≤ fuel →
             buildTrashTarget os fuel trashDir absolutePath s = (Returned target, s))
    ∧ existsSync os (world s) target = false.
Proof.
  intros Hocc.
  destruct (free_candidate (world s) trashDir absolutePath occupied Hocc)
    as (k & Hk & Hfree & Htaken).
  eexists. split; [|exact Hfree].
  intros fuel Hfuel. rewrite buildTrashTarget_unfold.
  apply (buildTrashTargetLoop_returns _ _ _ s k fuel 0).
  - lia.
  - intros j Hj. apply Htaken. lia.
  - exact Hfree.
Qed.

(** ** One item *)

Lemma after_after (s : State) w1 new1 w2 new2 :
  after (after s w1 new1) w2 new2 = after s w2 (new1 ++ new2).
Proof. unfold Batch.after. cbn. rewrite app_assoc. reflexivity. Qed.

(** An item whose destination is [target] is moved as [attemptMove] says;
    its failure, if any, becomes an entry of [errors], and the item returns
    in every case. *)
Lemma moveItem_attempt fuel trashDir item errors (s : State) target :
  buildTrashTarget os fuel trashDir (absolute item) s = (Returned target, s) →
  moveItem os fuel trashDir item errors s
  = let '(failure, w', new) := attemptMove (world s) (absolute item) target in
    (Returned (match failure with
               | Some error => errors ++ [failureEntry item error]
               | None => errors
               end),
     after s w' new).
Proof.
  intros Htarget. unfold moveItem, Batch.attemptMove.
  unfold tryCatch at 1. unfold bind at 1. rewrite Htarget.
  unfold_computation. unfold Batch.after, failureEntry.
  cbn [fst snd world calls cachedTrashCliCommand].
  destruct (renameSync os (world s) (absolute item) target) as [[error|] w1];
    cbn [fst snd world calls cachedTrashCliCommand]; [|reflexivity].
  destruct (isCrossDeviceError error); [|reflexivity].
  cbn [fst snd world calls cachedTrashCliCommand].
  destruct (cpSync os w1 (absolute item) target) as [[error'|] w2];
    cbn [fst snd world calls cachedTrashCliCommand].
  - rewrite <- app_assoc. reflexivity.
  - destruct (rmSync os w2 (absolute item)) as [[error''|] w3];
      cbn [fst snd world calls cachedTrashCliCommand];
      rewrite <- !app_assoc; reflexivity.
Qed.

Lemma moveItem_diverges fuel trashDir item errors (s : State) :
  buildTrashTarget os fuel trashDir (absolute item) s = (Diverged, s) →
  moveItem os fuel trashDir item errors s = (Diverged, s).
Proof.
  intros Htarget. unfold moveItem.
  unfold tryCatch at 1. unfold bind at 1. rewrite Htarget. reflexivity.
Qed.

(** An item never throws: it returns or, short of fuel, is still running. *)
Lemma moveItem_outcome fuel trashDir item errors (s : State) :
  (∃ errors' s', moveItem os fuel trashDir item errors s = (Returned errors', s'))
  ∨ moveItem os fuel trashDir item errors s = (Diverged, s).
Proof.
  destruct (buildTrashTarget_outcome fuel trashDir (absolute item) s)
    as (outcome & Hrun & [->|(k & -> & _)]).
  - right. apply moveItem_diverges, Hrun.
  - left. rewrite (moveItem_attempt _ _ _ _ _ _ Hrun).
    destruct (attemptMove _ _ _) as [[failure w'] new]. eauto.
Qed.

Lemma moveItems_app fuel trashDir before rest :
  ∀ errors (s : State) errors' s',
    moveItems os fuel trashDir before errors s = (Returned errors', s') →
    moveItems os fuel trashDir (before ++ rest) errors s
    = moveItems os fuel trashDir rest errors' s'.
Proof.
  induction before as [|item before IH]; intros errors s errors' s' Hrun.
  - cbn in Hrun. unfold ret in Hrun. injection Hrun as <- <-. reflexivity.
  - cbn [app moveItems] in *. unfold bind in *.
    destruct (moveItem os fuel trashDir item errors s) as [[errors1| |] s1];
      [|discriminate..].
    apply IH, Hrun.
Qed.

Lemma moveItems_never_throws fuel trashDir existing :
  ∀ errors (s : State) error s',
    moveItems os fuel trashDir existing errors s ≠ (Threw error, s').
Proof.
  induction existing as [|item rest IH]; intros errors s error s'.
  - discriminate.
  - cbn [moveItems]. unfold bind.
    destruct (moveItem_outcome fuel trashDir item errors s)
      as [(errors1 & s1 & ->)| ->]; [apply IH|discriminate].
Qed.

Lemma attemptMove_renames_once (w : World) src dst failure w' new :
  attemptMove w src dst = (failure, w', new) →
  Batch.renameSources new = [src].
Proof.
  unfold Batch.attemptMove.
  destruct (renameSync os w src dst) as [[error|] w1];
    [destruct (isCrossDeviceError error);
     [destruct (cpSync os w1 src dst) as [[error'|] w2];
      [|destruct (rmSync os w2 src) as [failure' w3]]|]|];
    intros [= _ _ <-]; reflexivity.
Qed.

Lemma renameSources_app new1 new2 :
  Batch.renameSources (new1 ++ new2)
  = Batch.renameSources new1 ++ Batch.renameSources new2.
Proof. apply omap_app. Qed.

(** ** The second loop, as a whole *)

(** Where directories are finite the loop returns, given enough fuel, and
    it has then tried to rename every item once, in order. *)
Lemma moveItems_returns trashDir existing :
  finiteDirectories →
  ∀ errors (s : State),
    ∃ fuel0 errors' s' new,
      (∀ fuel, fuel0 ≤ fuel →
               moveItems os fuel trashDir existing errors s = (Returned errors', s'))
      ∧ calls s' = calls s ++ new
      ∧ Batch.renameSources new = map absolute existing.
Proof.
  intros Hfinite. induction existing as [|item rest IH]; intros errors s.
  - exists 0, errors, s, []. split; [reflexivity|].
    split; [rewrite app_nil_r; reflexivity|reflexivity].
  - destruct (Hfinite (world s) trashDir) as [occupied Hocc].
    destruct (buildTrashTarget_returns trashDir (absolute item) s occupied Hocc)
      as (target & Htarget & _).
    destruct (attemptMove (world s) (absolute item) target)
      as [[failure w1] new1] eqn:Hattempt.
    set (errors1 := match failure with
                    | Some error => errors ++ [failureEntry item error]
                    | None => errors
                    end).
    destruct (IH errors1 (after s w1 new1)) as (fuel1 & errors' & s' & new & Hrest & Hcalls & Hsources).
    exists (Nat.max (S (List.length occupied)) fuel1), errors', s', (new1 ++ new).
    split; [|split].
    + intros fuel Hfuel. cbn [moveItems]. unfold bind.
      rewrite (moveItem_attempt _ _ _ _ _ _ (Htarget fuel ltac:(lia))), Hattempt.
      apply Hrest. lia.
    + rewrite Hcalls. cbn. rewrite app_assoc. reflexivity.
    + rewrite renameSources_app, Hsources,
        (attemptMove_renames_once _ _ _ _ _ _ Hattempt).
      reflexivity.
Qed.

(** ** The helper *)

Lemma readProcessStream_returns stream (s : State) :
  ∃ text, readProcessStream stream s = (Returned text, s).
Proof.
  destruct stream as [|[[[error|[text|]]|] [|] [error'|text']]];
    eexists; reflexivity.
Qed.

(** The helper block makes one call, with the command and the absolute
    paths of all items, and throws nothing; where it returns a result, the
    result carries the missing paths. *)
Lemma runTrashCli_outcome command absent existing (s : State) :
  ∃ early s',
    runTrashCli os command absent existing s = (Returned early, s')
    ∧ calls s' = calls s ++ [CallSpawn (command :: map absolute existing)]
    ∧ cachedTrashCliCommand s' = cachedTrashCliCommand s
    ∧ ∀ result, early = Some result → missing result = absent.
Proof.
  unfold runTrashCli. unfold tryCatch at 1. unfold bind at 1.
  unfold spawnM, callWorld.
  destruct (spawn os (world s) (command :: map absolute existing) Pipe)
    as [[error|proc] w].
  - eexists _, _. split; [reflexivity|]. split; [reflexivity|].
    split; [reflexivity|]. intros result [= <-]. reflexivity.
  - unfold bind at 1.
    match goal with
    | |- context [readProcessStream (stderr proc) ?s1] =>
        destruct (readProcessStream_returns (stderr proc) s1) as [text ->]
    end.
    unfold bind, await.
    destruct (exited proc) as [error|exitCode].
    + eexists _, _. split; [reflexivity|]. split; [reflexivity|].
      split; [reflexivity|]. intros result [= <-]. reflexivity.
    + unfold ret. destruct (exitCode =? 0)%Z.
      * eexists _, _. split; [reflexivity|]. split; [reflexivity|].
        split; [reflexivity|]. intros result [= <-]. reflexivity.
      * destruct (bool_decide (0 < String.length (Js.trim text))).
        -- eexists _, _. split; [reflexivity|]. split; [reflexivity|].
           split; [reflexivity|]. intros result [= <-]. reflexivity.
        -- eexists _, _. split; [reflexivity|]. split; [reflexivity|].
           split; [reflexivity|]. discriminate.
Qed.

Lemma getTrashDirectory_reads (s : State) :
  ∃ trashDir, getTrashDirectory os s = (Returned trashDir, s).
Proof.
  unfold getTrashDirectory. unfold_computation.
  destruct (env os (world s) "HOME") as [home|]; [|eexists; reflexivity].
  destruct (negb (Js.truthy home)); [eexists; reflexivity|].
  destruct (existsSync os (world s) (Path.join [home; ".Trash"]));
    eexists; reflexivity.
Qed.

Lemma moveDirectly_returns absent existing :
  finiteDirectories →
  ∀ s : State,
    ∃ fuel0 result s',
      (∀ fuel, fuel0 ≤ fuel →
               moveDirectly os fuel absent existing s = (Returned result, s'))
      ∧ missing result = absent.
Proof.
  intros Hfinite s. unfold moveDirectly.
  destruct (getTrashDirectory_reads s) as [[trashDir|] Hdir].
  - destruct (moveItems_returns trashDir existing Hfinite [] s)
      as (fuel0 & errors' & s' & new & Hrun & _).
    exists fuel0, {| missing := absent; errors := errors' |}, s'.
    split; [|reflexivity].
    intros fuel Hfuel. unfold bind at 1. rewrite Hdir.
    unfold bind. rewrite (Hrun fuel Hfuel). reflexivity.
  - eexists 0, _, s. split.
    + intros fuel _. unfold bind. rewrite Hdir. reflexivity.
    + reflexivity.
Qed.

Lemma findTrashCliCommand_returns (s : State) :
  ∃ found s', findTrashCliCommand os s = (Returned found, s').
Proof.
  destruct (cachedTrashCliCommand s) eqn:Hcached.
  - rewrite findTrashCliCommand_cold by exact Hcached.
    destruct (probeCandidates_returns
                (candidatePaths (searchDirs (env os (world s) "PATH")
                                            (env os (world s) "HOMEBREW_PREFIX"))) s)
      as (found & s' & Hrun & _).
    eauto.
  - exists None, s. apply findTrashCliCommand_warm, Hcached.
  - exists (Some command), s. apply findTrashCliCommand_warm, Hcached.
Qed.

(** Where directories are finite, the part after the first loop returns a
    result, given enough fuel, and the result carries the missing paths. *)
Lemma trashExisting_returns absent existing :
  finiteDirectories →
  ∀ s : State,
    ∃ fuel0 result s',
      (∀ fuel, fuel0 ≤ fuel →
               trashExisting os fuel absent existing s = (Returned result, s'))
      ∧ missing result = absent.
Proof.
  intros Hfinite s. unfold trashExisting.
  destruct (List.length existing =? 0).
  { eexists 0, _, s. split.
    - intros fuel _. reflexivity.
    - reflexivity. }
  destruct (findTrashCliCommand_returns s) as (found & s1 & Hfound).
  assert (∃ early s2,
            (match found with
             | Some command =>
                 if Js.truthy command then runTrashCli os command absent existing
                 else ret None
             | None => ret None
             end) s1 = (Returned early, s2)
            ∧ ∀ result, early = Some result → missing result = absent)
    as (early & s2 & Hearly & Hmissing).
  { destruct found as [command|]; [destruct (Js.truthy command)|].
    - destruct (runTrashCli_outcome command absent existing s1)
        as (early & s2 & Hrun & _ & _ & Hmissing). eauto.
    - exists None, s1. split; [reflexivity|discriminate].
    - exists None, s1. split; [reflexivity|discriminate]. }
  destruct early as [result|].
  - exists 0, result, s2. split; [|apply Hmissing; reflexivity].
    intros fuel _. unfold bind at 1. rewrite Hfound.
    unfold bind. rewrite Hearly. reflexivity.
  - destruct (moveDirectly_returns absent existing Hfinite s2)
      as (fuel0 & result & s' & Hrun & Hresult).
    exists fuel0, result, s'. split; [|exact Hresult].
    intros fuel Hfuel. unfold bind at 1. rewrite Hfound.
    unfold bind. rewrite Hearly. apply Hrun, Hfuel.
Qed.

(** C5.  The destination of an item is chosen so that it collides with
    nothing that exists when it is chosen.  [buildTrashTarget] leaves the
    state alone and, when it returns, returns the first candidate that does
    not exist, all candidates before it being taken; the candidates are, in
    order, the base name of the source, the base name with the timestamp
    appended, and that with the suffixes [-1], [-2], ... appended, each
    joined to the trash directory.  So the destination differs from every
    path that exists at that moment, and the move overwrites nothing that
    exists then.  For two items of a batch this gives two different
    destinations whenever the destination of the first is still occupied
    when the destination of the second is chosen: the second destination
    does not exist at that moment and differs from the first.  Without that
    condition the two can coincide: a batch can itself move the first
    destination away in between. *)
Theorem destination_is_collision_safe :
  (∀ fuel trashDir absolutePath (s : State) outcome s',
     buildTrashTarget os fuel trashDir absolutePath s = (outcome, s') →
     s' = s
     ∧ (outcome = Diverged
        ∨ ∃ k,
            let candidateAt :=
              Naming.candidateAt trashDir (Path.basename absolutePath)
                (dateNow os (world s)) in
            outcome = Returned (candidateAt k)
            ∧ existsSync os (world s) (candidateAt k) = false
            ∧ ∀ j, j < k → existsSync os (world s) (candidateAt j) = true))
  ∧ (∀ trashDir baseName timestamp,
       Naming.candidateAt trashDir baseName timestamp 0
       = Path.join [trashDir; baseName]
       ∧ Naming.candidateAt trashDir baseName timestamp 1
         = Path.join [trashDir; baseName +:+ "-" +:+ pretty timestamp]
       ∧ ∀ n,
           Naming.candidateAt trashDir baseName timestamp (S (S n))
           = Path.join [trashDir;
                        baseName +:+ "-" +:+ pretty timestamp
                          +:+ "-" +:+ pretty (N.of_nat (S n))])
  ∧ (∀ fuel trashDir absolutePath (s : State) target earlier,
       buildTrashTarget os fuel trashDir absolutePath s = (Returned target, s) →
       existsSync os (world s) earlier = true →
       target ≠ earlier)
  ∧ (∀ fuel trashDir item1 between item2 errors errors1 errors2 (s s1 s2 : State)
       target1 target2,
       buildTrashTarget os fuel trashDir (absolute item1) s = (Returned target1, s) →
       moveItem os fuel trashDir item1 errors s = (Returned errors1, s1) →
       moveItems os fuel trashDir between errors1 s1 = (Returned errors2, s2) →
       existsSync os (world s2) target1 = true →
       buildTrashTarget os fuel trashDir (absolute item2) s2 = (Returned target2, s2) →
       existsSync os (world s) target1 = false
       ∧ existsSync os (world s2) target2 = false
       ∧ target1 ≠ target2).
Proof.
  assert (∀ fuel trashDir absolutePath (s : State) target,
            buildTrashTarget os fuel trashDir absolutePath s = (Returned target, s) →
            existsSync os (world s) target = false) as Hfree.
  { intros fuel trashDir absolutePath s target Hrun.
    destruct (buildTrashTarget_outcome fuel trashDir absolutePath s)
      as (outcome & Hrun' & [->|(k & -> & Hk & _)]); rewrite Hrun in Hrun'.
    - discriminate.
    - injection Hrun' as ->. exact Hk. }
  split; [|split; [|split]].
  - intros fuel trashDir absolutePath s outcome s' Hrun.
    destruct (buildTrashTarget_outcome fuel trashDir absolutePath s)
      as (outcome' & Hrun' & Hcases).
    rewrite Hrun in Hrun'. injection Hrun' as -> ->. split; [reflexivity|exact Hcases].
  - intros trashDir baseName timestamp.
    split; [reflexivity|]. split; [|intros n].
    + unfold Naming.candidateAt, Naming.trashName, disambiguated.
      cbn [N.of_nat N.ltb N.compare]. rewrite PathFacts.append_nil_r. reflexivity.
    + unfold Naming.candidateAt, Naming.trashName, disambiguated.
      replace (0 <? N.of_nat (S n))%N with true
        by (symmetry; apply N.ltb_lt; lia).
      reflexivity.
  - intros fuel trashDir absolutePath s target earlier Hrun Hearlier ->.
    rewrite (Hfree _ _ _ _ _ Hrun) in Hearlier. discriminate.
  - intros fuel trashDir item1 between item2 errors errors1 errors2 s s1 s2
      target1 target2 Htarget1 _ _ Hthere Htarget2.
    pose proof (Hfree _ _ _ _ _ Htarget2) as Hfree2.
    split; [exact (Hfree _ _ _ _ _ Htarget1)|]. split; [exact Hfree2|].
    intros ->. rewrite Hthere in Hfree2. discriminate.
Qed.

(** C6.  In the direct fallback a failure stays with its item.  An item
    whose destination has been chosen always returns: a rename that throws
    anything but a cross-device error, and a copy or a removal that throws
    after a cross-device error, end the item with the entry
    ["Failed to move <raw path> to Trash: <reason>"] appended to [errors],
    made of the raw path of the item.  Nothing is ever thrown out of the
    loop, and the loop goes on after every item that returns, failed or not:
    the rest of the batch is processed from the state the item left, in
    which the moves made before are as they were, and an item makes calls
    on its own source and destination only. *)
Theorem item_failures_are_isolated fuel trashDir :
  (∀ item errors (s : State) target error w1,
     buildTrashTarget os fuel trashDir (absolute item) s = (Returned target, s) →
     renameSync os (world s) (absolute item) target = (Some error, w1) →
     isCrossDeviceError error = false →
     moveItem os fuel trashDir item errors s
     = (Returned (errors ++ ["Failed to move " +:+ raw item +:+ " to Trash: "
                               +:+ formatTrashError error]),
        after s w1 [CallRename (absolute item) target]))
  ∧ (∀ item errors (s : State) target error w' new,
       buildTrashTarget os fuel trashDir (absolute item) s = (Returned target, s) →
       attemptMove (world s) (absolute item) target = (Some error, w', new) →
       moveItem os fuel trashDir item errors s
       = (Returned (errors ++ ["Failed to move " +:+ raw item +:+ " to Trash: "
                                 +:+ formatTrashError error]),
          after s w' new))
  ∧ (∀ existing errors (s : State) error s',
       moveItems os fuel trashDir existing errors s ≠ (Threw error, s'))
  ∧ (∀ before item rest errors (s : State) errorsB sB errorsI sI,
       moveItems os fuel trashDir before errors s = (Returned errorsB, sB) →
       moveItem os fuel trashDir item errorsB sB = (Returned errorsI, sI) →
       moveItems os fuel trashDir (before ++ item :: rest) errors s
       = moveItems os fuel trashDir rest errorsI sI)
  ∧ (∀ (w : World) src dst failure w' new call,
       attemptMove w src dst = (failure, w', new) →
       call ∈ new →
       call = CallRename src dst ∨ call = CallCp src dst ∨ call = CallRm src).
Proof.
  split; [|split; [|split; [|split]]].
  - intros item errors s target error w1 Htarget Hrename Hother.
    rewrite (moveItem_attempt _ _ _ _ _ _ Htarget).
    unfold Batch.attemptMove. rewrite Hrename, Hother. reflexivity.
  - intros item errors s target error w' new Htarget Hattempt.
    rewrite (moveItem_attempt _ _ _ _ _ _ Htarget), Hattempt. reflexivity.
  - apply moveItems_never_throws.
  - intros before item rest errors s errorsB sB errorsI sI Hbefore Hitem.
    rewrite (moveItems_app _ _ _ _ _ _ _ _ Hbefore).
    cbn [moveItems]. unfold bind. rewrite Hitem. reflexivity.
  - intros w src dst failure w' new call Hattempt Hin.
    assert (new = [CallRename src dst]
            ∨ new = [CallRename src dst; CallCp src dst]
            ∨ new = [CallRename src dst; CallCp src dst; CallRm src]) as Hnew.
    { unfold Batch.attemptMove in Hattempt.
      destruct (renameSync os w src dst) as [[error|] w1];
        [destruct (isCrossDeviceError error);
         [destruct (cpSync os w1 src dst) as [[error'|] w2];
          [|destruct (rmSync os w2 src) as [failure' w3]]|]|];
        injection Hattempt as _ _ <-; auto. }
    destruct Hnew as [->|[->| ->]];
      repeat (apply elem_of_cons in Hin as [->|Hin]; [auto|]);
      inversion Hin.
Qed.

(** C9.  [buildTrashTarget] terminates wherever only finitely many names are
    taken in the trash directory: if every proper name taken there is in the
    list [occupied], the call returns with any fuel above the length of the
    list, and it leaves the state as it found it.  The path it returns does
    not exist at that moment.  The names it tries are pairwise different, so
    each turn of the loop tries a new one. *)
Theorem buildTrashTarget_terminates trashDir absolutePath (s : State)
    (occupied : list string) :
  (∀ name, Path.properName name →
           existsSync os (world s) (Path.join [trashDir; name]) = true →
           name ∈ occupied) →
  (∃ target,
     (∀ fuel, S (List.length occupied) ≤ fuel →
              buildTrashTarget os fuel trashDir absolutePath s = (Returned target, s))
     ∧ existsSync os (world s) target = false)
  ∧ (∀ k1 k2,
       Naming.trashName (Path.basename absolutePath) (dateNow os (world s)) k1
       = Naming.trashName (Path.basename absolutePath) (dateNow os (world s)) k2 →
       k1 = k2).
Proof.
  intros Hocc. split; [|intros k1 k2; apply PathFacts.trashName_inj].
  apply buildTrashTarget_returns, Hocc.
Qed.

(** A batch without protected path goes on to [trashExisting] with what the
    first loop sorted. *)
Lemma movePathsToTrash_sorted fuel paths baseDir options (s : State) :
  Forall (λ rawPath, ¬ isProtected (world s) baseDir options rawPath) paths →
  movePathsToTrash os fuel paths baseDir options s
  = trashExisting os fuel
      (missingOf (world s) baseDir options paths)
      (existingOf (world s) baseDir paths) s.
Proof.
  intros Hfree. unfold movePathsToTrash.
  unfold bind at 1. rewrite refuseCanonicals_reads.
  unfold bind at 1.
  rewrite (classifyPaths_sorted _ _ _ _ _ (refuseCanonicals_holds _ _ _) [] [] Hfree).
  reflexivity.
Qed.

Lemma movePathsToTrash_refused fuel baseDir options before offending after (s : State) :
  Forall (λ rawPath, ¬ isProtected (world s) baseDir options rawPath) before →
  isProtected (world s) baseDir options offending →
  movePathsToTrash os fuel (before ++ offending :: after) baseDir options s
  = (Returned {| missing := [];
                 errors := ["Refusing to trash protected path: " +:+ offending] |},
     s).
Proof.
  intros Hfree Hbad. unfold movePathsToTrash.
  unfold bind at 1. rewrite refuseCanonicals_reads.
  unfold bind at 1.
  rewrite (classifyPaths_refused _ _ _ _ _ after _ (refuseCanonicals_holds _ _ _)
             [] [] Hfree Hbad).
  reflexivity.
Qed.

(** X17.  A batch in which the canonical form the code computes for some
    path ([normalize] of what [resolvePath] returns) is in the set of
    protected paths (the root, the base directory, or an entry of
    [refusePaths], each resolved against the base directory and normalized)
    is refused as a whole: the result has no [missing], its [errors] is the
    one entry that names the first such raw path, and the state afterwards
    is the state before, so the world is untouched, no platform call was
    made and nothing was moved, not even the paths the loop had found to
    exist before it met the protected one. *)
Theorem refusal_aborts_batch fuel paths baseDir options (s : State) rawPath :
  rawPath ∈ paths →
  canonicalOf (world s) baseDir rawPath ∈ protectedPaths (world s) baseDir options →
  ∃ before offending after,
    paths = before ++ offending :: after
    ∧ Forall (λ p, canonicalOf (world s) baseDir p
                   ∉ protectedPaths (world s) baseDir options) before
    ∧ canonicalOf (world s) baseDir offending ∈ protectedPaths (world s) baseDir options
    ∧ movePathsToTrash os fuel paths baseDir options s
      = (Returned {| missing := [];
                     errors := ["Refusing to trash protected path: " +:+ offending] |},
         s).
Proof.
  intros Hin Hbad.
  destruct (first_protected (world s) baseDir options paths rawPath Hin Hbad)
    as (before & offending & after & -> & Hfree & Hoff).
  exists before, offending, after.
  split; [reflexivity|]. split; [exact Hfree|]. split; [exact Hoff|].
  apply movePathsToTrash_refused; assumption.
Qed.

(** C3.  Refusal is decided by equality of canonical forms and by nothing
    else: a batch none of whose paths has a canonical form equal to a
    protected path is not refused, wherever those forms lie (underneath a
    protected directory or not).  The first loop runs to its end and the
    batch goes on with every path that exists in the set to move. *)
Theorem refusal_is_exact_match fuel paths baseDir options (s : State) :
  (∀ rawPath protected,
     rawPath ∈ paths →
     protected ∈ protectedPaths (world s) baseDir options →
     canonicalOf (world s) baseDir rawPath ≠ protected) →
  classifyPaths os (list_to_set (protectedPaths (world s) baseDir options))
    baseDir options paths [] [] s
  = (Returned (Sorted (missingOf (world s) baseDir options paths)
                      (existingOf (world s) baseDir paths)), s)
  ∧ movePathsToTrash os fuel paths baseDir options s
    = trashExisting os fuel
        (missingOf (world s) baseDir options paths)
        (existingOf (world s) baseDir paths) s.
Proof.
  intros Hne.
  assert (Forall (λ rawPath, ¬ isProtected (world s) baseDir options rawPath) paths)
    as Hfree.
  { apply Forall_forall. intros rawPath Hin Hbad. exact (Hne _ _ Hin Hbad eq_refl). }
  split.
  - apply (classifyPaths_sorted _ _ _ _ _ (refuseCanonicals_holds _ _ _) [] [] Hfree).
  - apply movePathsToTrash_sorted. exact Hfree.
Qed.

(** Where directories are finite, [movePathsToTrash] returns a result for
    every batch, given enough fuel: it never throws. *)
Lemma movePathsToTrash_returns paths baseDir options (s : State) :
  finiteDirectories →
  ∃ fuel0 result s',
    ∀ fuel, fuel0 ≤ fuel →
            movePathsToTrash os fuel paths baseDir options s = (Returned result, s').
Proof.
  intros Hfinite.
  destruct (decide (Forall (λ rawPath, ¬ isProtected (world s) baseDir options rawPath)
                           paths)) as [Hfree|Hsome].
  - destruct (trashExisting_returns (missingOf (world s) baseDir options paths)
                (existingOf (world s) baseDir paths) Hfinite s)
      as (fuel0 & result & s' & Hrun & _).
    exists fuel0, result, s'. intros fuel Hfuel.
    rewrite movePathsToTrash_sorted by exact Hfree. apply Hrun, Hfuel.
  - apply not_Forall_Exists, Exists_exists in Hsome as (rawPath & Hin & Hbad);
      [|apply _].
    apply dec_stable in Hbad.
    destruct (first_protected (world s) baseDir options paths rawPath Hin Hbad)
      as (before & offending & rest & -> & Hfree & Hoff).
    eexists 0, _, s. intros fuel _.
    apply movePathsToTrash_refused; assumption.
Qed.

(** ** Missing paths and repeated paths *)







End WithPlatform.

(** ** The helper that fails without a word *)

(** A helper that exits with a status other than 0 and whose standard error
    trims to nothing makes the helper block return no result: control leaves
    the block and reaches the direct fallback. *)
Lemma runTrashCli_silent_failure {World} (os : Platform World)
    command absent existing (s : Trash.State World) proc w text :
  spawn os (world s) (command :: map absolute existing) Pipe = (inr proc, w) →
  (∀ s1 : Trash.State World,
     readProcessStream (stderr proc) s1 = (Returned text, s1)) →
  (∃ exitCode, exited proc = inr exitCode ∧ exitCode ≠ 0%Z) →
  Js.trim text = "" →
  runTrashCli os command absent existing s
  = (Returned None,
     Batch.after s w [CallSpawn (command :: map absolute existing)]).
Proof.
  intros Hspawn Htext (exitCode & Hexit & Hnonzero) Htrim.
  unfold runTrashCli. unfold tryCatch at 1. unfold bind at 1.
  unfold spawnM, callWorld. rewrite Hspawn.
  unfold bind at 1. rewrite Htext.
  unfold bind, await. rewrite Hexit. unfold ret.
  apply Z.eqb_neq in Hnonzero as ->. rewrite Htrim. reflexivity.
Qed.

(** C2, on the code.  On the sample machine whose [trash-put] fails without
    a word, the batch [["a.txt"]] finds the helper, runs it, gets status 2
    and no text, and then moves the file itself: the calls end with the
    rename of the direct fallback, the file is in the trash, and the result
    has no error, so the failure of the helper is reported nowhere. *)
Theorem silent_helper_failure_falls_through :
  let run :=
    movePathsToTrash Sim.platform 0 ["a.txt"] "/work"
      {| allowMissing := false; refusePaths := None |}
      (Sim.fresh Samples.silentHelper) in
  run.1 = Returned {| missing := []; errors := [] |}
  ∧ calls run.2
    = [CallSpawn ["trash-put"; "--help"];
       CallSpawn ["trash-put"; "/work/a.txt"];
       CallRename "/work/a.txt" "/home/u/.Trash/a.txt"]
  ∧ Sim.files (world run.2) !! "/work/a.txt" = None
  ∧ Sim.files (world run.2) !! "/home/u/.Trash/a.txt" = Some "A".
Proof. vm_compute. repeat split. Qed.

(** ** The cross-device fallback *)

(** C7.  When the rename of an item throws an [Error] whose [code] is
    [EXDEV], and only then, the item is copied to the destination and then
    removed at the source, in this order; where both succeed the item ends
    without error.  A rename that throws anything else is followed by no
    copy and no removal: the item ends with its failure recorded.  On the
    concrete machine the copy and the removal do what their names say, so
    after a cross-device move the content is at the destination in the
    trash and the source path no longer exists. *)
Theorem cross_device_rename_falls_back :
  (∀ World (os : Platform World) fuel trashDir item errors
     (s : Trash.State World) target error w1,
     buildTrashTarget os fuel trashDir (absolute item) s = (Returned target, s) →
     renameSync os (world s) (absolute item) target = (Some error, w1) →
     (isCrossDeviceError error = true →
      ∀ w2 w3,
        cpSync os w1 (absolute item) target = (None, w2) →
        rmSync os w2 (absolute item) = (None, w3) →
        moveItem os fuel trashDir item errors s
        = (Returned errors,
           Batch.after s w3 [CallRename (absolute item) target;
                             CallCp (absolute item) target;
                             CallRm (absolute item)]))
     ∧ (isCrossDeviceError error = false →
        moveItem os fuel trashDir item errors s
        = (Returned (errors ++ ["Failed to move " +:+ raw item +:+ " to Trash: "
                                  +:+ formatTrashError error]),
           Batch.after s w1 [CallRename (absolute item) target])))
  ∧ (∀ error,
       isCrossDeviceError error = true
       ↔ ∃ message, error = ErrorObject message (Some "EXDEV"))
  ∧ (∀ fuel trashDir item errors (s : Trash.State Sim.World) target content,
       buildTrashTarget Sim.platform fuel trashDir (absolute item) s
       = (Returned target, s) →
       Sim.files (world s) !! absolute item = Some content →
       absolute item ∉ Sim.locked (world s) →
       Sim.crossesDevices (world s) (absolute item) target = true →
       ∃ s',
         moveItem Sim.platform fuel trashDir item errors s = (Returned errors, s')
         ∧ calls s' = calls s ++ [CallRename (absolute item) target;
                                  CallCp (absolute item) target;
                                  CallRm (absolute item)]
         ∧ Sim.files (world s') !! target = Some content
         ∧ Sim.files (world s') !! absolute item = None).
Proof.
  split; [|split].
  - intros World os fuel trashDir item errors s target error w1 Htarget Hrename.
    rewrite (moveItem_attempt os _ _ _ _ _ _ Htarget).
    unfold Batch.attemptMove. rewrite Hrename. split.
    + intros -> w2 w3 -> ->. reflexivity.
    + intros ->. reflexivity.
  - intros error. split.
    + destruct error as [message [code|]|text code]; cbn; try discriminate.
      intros ->%String.eqb_eq. eauto.
    + intros [message ->]. reflexivity.
  - intros fuel trashDir item errors s target content Htarget Hsrc Hfree Hcross.
    destruct (SimFacts.cross_device_move (world s) _ target content Hsrc Hfree Hcross)
      as (w' & Hattempt & Hdst & Hgone).
    rewrite (moveItem_attempt Sim.platform _ _ _ _ _ _ Htarget), Hattempt.
    eexists. split; [reflexivity|]. cbn. auto.
Qed.


(** Witness of C5, on the sample machine: the two files named [a.txt], with
    [key.pem] handled between them, land at [a.txt] and [a.txt-1700] in
    the trash, each with its own content. *)
Lemma destination_is_collision_safe_witness :
  let s := Sim.fresh Samples.plain in
  let item1 := {| raw := "a.txt"; absolute := "/work/a.txt" |} in
  let between := [{| raw := "secrets/key.pem"; absolute := "/work/secrets/key.pem" |}] in
  let item2 := {| raw := "d/a.txt"; absolute := "/work/d/a.txt" |} in
  let s1 := (moveItem Sim.platform 1 "/home/u/.Trash" item1 [] s).2 in
  let s2 := (moveItems Sim.platform 1 "/home/u/.Trash" between [] s1).2 in
  buildTrashTarget Sim.platform 1 "/home/u/.Trash" (absolute item1) s
  = (Returned "/home/u/.Trash/a.txt", s)
  ∧ moveItem Sim.platform 1 "/home/u/.Trash" item1 [] s = (Returned [], s1)
  ∧ moveItems Sim.platform 1 "/home/u/.Trash" between [] s1 = (Returned [], s2)
  ∧ existsSync Sim.platform (world s2) "/home/u/.Trash/a.txt" = true
  ∧ buildTrashTarget Sim.platform 1 "/home/u/.Trash" (absolute item2) s2
    = (Returned "/home/u/.Trash/a.txt-1700", s2)
  ∧ (existsSync Sim.platform (world s) "/home/u/.Trash/a.txt" = false
     ∧ existsSync Sim.platform (world s2) "/home/u/.Trash/a.txt-1700" = false
     ∧ "/home/u/.Trash/a.txt" ≠ "/home/u/.Trash/a.txt-1700")
  ∧ Sim.files (world (moveItems Sim.platform 1 "/home/u/.Trash"
                        (item1 :: between ++ [item2]) [] s).2)
    = {[ "/work" := ""; "/home/u/.Trash" := ""; "/home/u/.Trash/key.pem" := "K";
         "/home/u/.Trash/a.txt" := "A"; "/home/u/.Trash/a.txt-1700" := "B" ]}.
Proof.
  intros s item1 between item2 s1 s2.
  assert (buildTrashTarget Sim.platform 1 "/home/u/.Trash" (absolute item1) s
          = (Returned "/home/u/.Trash/a.txt", s)) as Htarget1
    by (vm_compute; reflexivity).
  assert (moveItem Sim.platform 1 "/home/u/.Trash" item1 [] s = (Returned [], s1))
    as Hmove by (vm_compute; reflexivity).
  assert (moveItems Sim.platform 1 "/home/u/.Trash" between [] s1 = (Returned [], s2))
    as Hbetween by (vm_compute; reflexivity).
  assert (existsSync Sim.platform (world s2) "/home/u/.Trash/a.txt" = true)
    as Hthere by (vm_compute; reflexivity).
  assert (buildTrashTarget Sim.platform 1 "/home/u/.Trash" (absolute item2) s2
          = (Returned "/home/u/.Trash/a.txt-1700", s2)) as Htarget2
    by (vm_compute; reflexivity).
  split; [exact Htarget1|]. split; [exact Hmove|]. split; [exact Hbetween|].
  split; [exact Hthere|]. split; [exact Htarget2|].
  split; [|vm_compute; reflexivity].
  destruct (destination_is_collision_safe Sim.platform) as (_ & _ & _ & Htwo).
  exact (Htwo 1 "/home/u/.Trash" item1 between item2 [] [] [] s s1 s2 _ _
           Htarget1 Hmove Hbetween Hthere Htarget2).
Defined.

(** The claim of C5 fails without the condition.  On the sample machine
    whose trash already holds [a.txt] and [a.txt-1700], the batch below
    moves the two sources [/work/a.txt] and [/work/d/a.txt], which share the
    base name [a.txt], to the same destination [/home/u/.Trash/a.txt]: the
    entry of the trash that the batch itself moves away in between frees
    the name again.  Both moves succeed ([errors] is empty). *)
Lemma shared_base_name_shared_destination :
  let s := {| world := Samples.crowded; cachedTrashCliCommand := Null; calls := [] |} in
  let batch := ["/home/u/.Trash/a.txt"; "a.txt"; "/home/u/.Trash/a.txt"; "d/a.txt"] in
  let run :=
    movePathsToTrash Sim.platform 4 batch "/work"
      {| allowMissing := false; refusePaths := None |} s in
  run.1 = Returned {| missing := []; errors := [] |}
  ∧ calls run.2
    = [CallRename "/home/u/.Trash/a.txt" "/home/u/.Trash/a.txt-1700-1";
       CallRename "/work/a.txt" "/home/u/.Trash/a.txt";
       CallRename "/home/u/.Trash/a.txt" "/home/u/.Trash/a.txt-1700-2";
       CallRename "/work/d/a.txt" "/home/u/.Trash/a.txt"]
  ∧ Path.basename "/work/a.txt" = Path.basename "/work/d/a.txt"
  ∧ "/work/a.txt" ≠ "/work/d/a.txt".
Proof.
  intros s batch run.
  split; [vm_compute; reflexivity|]. split; [vm_compute; reflexivity|].
  split; [vm_compute; reflexivity|discriminate].
Qed.

(** Witness of C6, on the sample machine with a locked [d/a.txt]: its rename
    fails, the failure is recorded, the file moved before it stays in the
    trash, and the file after it is moved. *)
Lemma item_failures_are_isolated_witness :
  let s := Sim.fresh Samples.hindered in
  let item1 := {| raw := "a.txt"; absolute := "/work/a.txt" |} in
  let item2 := {| raw := "d/a.txt"; absolute := "/work/d/a.txt" |} in
  let item3 := {| raw := "secrets/key.pem"; absolute := "/work/secrets/key.pem" |} in
  let s1 := (moveItem Sim.platform 1 "/home/u/.Trash" item1 [] s).2 in
  let failure := Sim.errno "EACCES" "rename" "/work/d/a.txt" in
  let entry := "Failed to move d/a.txt to Trash: EACCES: rename '/work/d/a.txt'" in
  let s2 := Batch.after s1 (world s1)
              [CallRename "/work/d/a.txt" "/home/u/.Trash/a.txt-1700"] in
  moveItems Sim.platform 1 "/home/u/.Trash" [item1] [] s = (Returned [], s1)
  ∧ buildTrashTarget Sim.platform 1 "/home/u/.Trash" (absolute item2) s1
    = (Returned "/home/u/.Trash/a.txt-1700", s1)
  ∧ renameSync Sim.platform (world s1) (absolute item2) "/home/u/.Trash/a.txt-1700"
    = (Some failure, world s1)
  ∧ isCrossDeviceError failure = false
  ∧ moveItem Sim.platform 1 "/home/u/.Trash" item2 [] s1 = (Returned [entry], s2)
  ∧ moveItems Sim.platform 1 "/home/u/.Trash" [item1; item2; item3] [] s
    = moveItems Sim.platform 1 "/home/u/.Trash" [item3] [entry] s2
  ∧ (moveItems Sim.platform 1 "/home/u/.Trash" [item1; item2; item3] [] s).1
    = Returned [entry]
  ∧ Sim.files (world (moveItems Sim.platform 1 "/home/u/.Trash"
                        [item1; item2; item3] [] s).2)
    = {[ "/work" := ""; "/work/d/a.txt" := "B"; "/home/u/.Trash" := "";
         "/home/u/.Trash/a.txt" := "A"; "/home/u/.Trash/key.pem" := "K" ]}.
Proof.
  intros s item1 item2 item3 s1 failure entry s2.
  assert (moveItems Sim.platform 1 "/home/u/.Trash" [item1] [] s = (Returned [], s1))
    as Hbefore by (vm_compute; reflexivity).
  assert (buildTrashTarget Sim.platform 1 "/home/u/.Trash" (absolute item2) s1
          = (Returned "/home/u/.Trash/a.txt-1700", s1)) as Htarget
    by (vm_compute; reflexivity).
  assert (renameSync Sim.platform (world s1) (absolute item2) "/home/u/.Trash/a.txt-1700"
          = (Some failure, world s1)) as Hrename by (vm_compute; reflexivity).
  assert (isCrossDeviceError failure = false) as Hother by reflexivity.
  destruct (item_failures_are_isolated Sim.platform 1 "/home/u/.Trash")
    as (Hrecorded & _ & _ & Hgoes & _).
  pose proof (Hrecorded item2 [] s1 _ _ _ Htarget Hrename Hother) as Hitem.
  split; [exact Hbefore|]. split; [exact Htarget|]. split; [exact Hrename|].
  split; [exact Hother|]. split; [exact Hitem|].
  split; [exact (Hgoes [item1] item2 [item3] [] s _ _ _ _ Hbefore Hitem)|].
  split; vm_compute; reflexivity.
Defined.

(** Witness of C7, on the sample machine with [/work/a.txt] on a second
    device. *)
Lemma cross_device_rename_falls_back_witness :
  let s := Sim.fresh Samples.hindered in
  let item := {| raw := "a.txt"; absolute := "/work/a.txt" |} in
  buildTrashTarget Sim.platform 0 "/home/u/.Trash" (absolute item) s
  = (Returned "/home/u/.Trash/a.txt", s)
  ∧ Sim.files (world s) !! (absolute item) = Some "A"
  ∧ (absolute item ∉ Sim.locked (world s))
  ∧ Sim.crossesDevices (world s) (absolute item) "/home/u/.Trash/a.txt" = true
  ∧ (∃ s',
       moveItem Sim.platform 0 "/home/u/.Trash" item [] s = (Returned [], s')
       ∧ calls s' = calls s ++ [CallRename (absolute item) "/home/u/.Trash/a.txt";
                                CallCp (absolute item) "/home/u/.Trash/a.txt";
                                CallRm (absolute item)]
       ∧ Sim.files (world s') !! "/home/u/.Trash/a.txt" = Some "A"
       ∧ Sim.files (world s') !! (absolute item) = None).
Proof.
  intros s item.
  assert (buildTrashTarget Sim.platform 0 "/home/u/.Trash" (absolute item) s
          = (Returned "/home/u/.Trash/a.txt", s)) as Htarget by (vm_compute; reflexivity).
  assert (Sim.files (world s) !! (absolute item) = Some "A") as Hsrc
    by (vm_compute; reflexivity).
  assert (absolute item ∉ Sim.locked (world s)) as Hfree by compute_done.
  assert (Sim.crossesDevices (world s) (absolute item) "/home/u/.Trash/a.txt" = true)
    as Hcross by (vm_compute; reflexivity).
  split; [exact Htarget|]. split; [exact Hsrc|]. split; [exact Hfree|].
  split; [exact Hcross|].
  destruct cross_device_rename_falls_back as (_ & _ & Hsim).
  exact (Hsim 0 "/home/u/.Trash" item [] s _ _ Htarget Hsrc Hfree Hcross).
Defined.

(** Witness of C8, on the sample machine with two programs: [trash-put]
    answers [--help] with status 2 and is passed over, the candidates that
    are not installed fail to spawn and are passed over, [/usr/bin/trash]
    answers with status 1 and is taken. *)
Lemma findTrashCliCommand_probe_witness :
  let s := Sim.fresh Samples.withHelper in
  (∃ found s',
     findTrashCliCommand Sim.platform s = (Returned found, s')
     ∧ cachedTrashCliCommand s' = Batch.cachedAs found
     ∧ ∀ later : Trash.State Sim.World,
         cachedTrashCliCommand later = cachedTrashCliCommand s' →
         findTrashCliCommand Sim.platform later = (Returned found, later))
  ∧ (findTrashCliCommand Sim.platform s).1 = Returned (Some "/usr/bin/trash")
  ∧ cachedTrashCliCommand (findTrashCliCommand Sim.platform s).2
    = Command "/usr/bin/trash"
  ∧ calls (findTrashCliCommand Sim.platform s).2
    = [CallSpawn ["trash-put"; "--help"];
       CallSpawn ["/usr/bin/trash-put"; "--help"];
       CallSpawn ["/bin/trash-put"; "--help"];
       CallSpawn ["/opt/homebrew/opt/trash/bin/trash-put"; "--help"];
       CallSpawn ["/usr/local/opt/trash/bin/trash-put"; "--help"];
       CallSpawn ["trash"; "--help"];
       CallSpawn ["/usr/bin/trash"; "--help"]].
Proof.
  intros s. split.
  - destruct (findTrashCliCommand_probe Sim.platform) as (Hreturns & _).
    exact (Hreturns s).
  - vm_compute. repeat split.
Defined.


(** Witness of X17, on the sample machine: [sub/..] is the base directory
    [/work]; the file [a.txt] before it exists and stays where it is. *)
Lemma refusal_aborts_batch_witness :
  "sub/.." ∈ ["a.txt"; "sub/.."; "d/a.txt"]
  ∧ Batch.canonicalOf Sim.platform Samples.plain "/work" "sub/.."
    ∈ Batch.protectedPaths Sim.platform Samples.plain "/work"
        {| allowMissing := false; refusePaths := None |}
  ∧ ∃ before offending after,
      ["a.txt"; "sub/.."; "d/a.txt"] = before ++ offending :: after
      ∧ Forall (λ p, Batch.canonicalOf Sim.platform Samples.plain "/work" p
                     ∉ Batch.protectedPaths Sim.platform Samples.plain "/work"
                         {| allowMissing := false; refusePaths := None |}) before
      ∧ Batch.canonicalOf Sim.platform Samples.plain "/work" offending
        ∈ Batch.protectedPaths Sim.platform Samples.plain "/work"
            {| allowMissing := false; refusePaths := None |}
      ∧ movePathsToTrash Sim.platform 0 ["a.txt"; "sub/.."; "d/a.txt"] "/work"
          {| allowMissing := false; refusePaths := None |} (Sim.fresh Samples.plain)
        = (Returned {| missing := [];
                       errors := ["Refusing to trash protected path: " +:+ offending] |},
           Sim.fresh Samples.plain).
Proof.
  assert ("sub/.." ∈ ["a.txt"; "sub/.."; "d/a.txt"]) as Hin
    by compute_done.
  assert (Batch.canonicalOf Sim.platform Samples.plain "/work" "sub/.."
          ∈ Batch.protectedPaths Sim.platform Samples.plain "/work"
              {| allowMissing := false; refusePaths := None |}) as Hbad
    by compute_done.
  split; [exact Hin|]. split; [exact Hbad|].
  exact (refusal_aborts_batch Sim.platform 0 _ "/work" _
           (Sim.fresh Samples.plain) "sub/.." Hin Hbad).
Defined.

(** Witness of C3, on the sample machine: with [refusePaths = ["secrets"]]
    the protected paths are [/], [/work] and [/work/secrets]; the canonical
    form of [secrets/key.pem] lies underneath the last one and equals none,
    and the file is moved. *)
Lemma refusal_is_exact_match_witness :
  let options := {| allowMissing := false; refusePaths := Some ["secrets"] |} in
  let s := Sim.fresh Samples.plain in
  Batch.protectedPaths Sim.platform Samples.plain "/work" options
  = ["/"; "/work"; "/work/secrets"]
  ∧ Batch.canonicalOf Sim.platform Samples.plain "/work" "secrets/key.pem"
    = "/work/secrets" +:+ "/key.pem"
  ∧ (∀ rawPath protected,
       rawPath ∈ ["secrets/key.pem"] →
       protected ∈ Batch.protectedPaths Sim.platform Samples.plain "/work" options →
       Batch.canonicalOf Sim.platform Samples.plain "/work" rawPath ≠ protected)
  ∧ (classifyPaths Sim.platform
       (list_to_set (Batch.protectedPaths Sim.platform Samples.plain "/work" options))
       "/work" options ["secrets/key.pem"] [] [] s
     = (Returned (Sorted (Batch.missingOf Sim.platform Samples.plain "/work" options
                            ["secrets/key.pem"])
                         (Batch.existingOf Sim.platform Samples.plain "/work"
                            ["secrets/key.pem"])), s)
     ∧ movePathsToTrash Sim.platform 0 ["secrets/key.pem"] "/work" options s
       = trashExisting Sim.platform 0
           (Batch.missingOf Sim.platform Samples.plain "/work" options ["secrets/key.pem"])
           (Batch.existingOf Sim.platform Samples.plain "/work" ["secrets/key.pem"]) s)
  ∧ (movePathsToTrash Sim.platform 0 ["secrets/key.pem"] "/work" options s).1
    = Returned {| missing := []; errors := [] |}
  ∧ Sim.files (world (movePathsToTrash Sim.platform 0 ["secrets/key.pem"] "/work"
                        options s).2) !! "/home/u/.Trash/key.pem"
    = Some "K".
Proof.
  intros options s.
  assert (∀ rawPath protected,
            rawPath ∈ ["secrets/key.pem"] →
            protected ∈ Batch.protectedPaths Sim.platform Samples.plain "/work" options →
            Batch.canonicalOf Sim.platform Samples.plain "/work" rawPath ≠ protected)
    as Hne.
  { assert (Forall (λ rawPath,
              Forall (λ protected,
                Batch.canonicalOf Sim.platform Samples.plain "/work" rawPath ≠ protected)
                (Batch.protectedPaths Sim.platform Samples.plain "/work" options))
              ["secrets/key.pem"]) as Hall by compute_done.
    intros rawPath protected Hraw Hprotected.
    rewrite Forall_forall in Hall. specialize (Hall rawPath Hraw).
    rewrite Forall_forall in Hall. exact (Hall protected Hprotected). }
  split; [vm_compute; reflexivity|].
  split; [vm_compute; reflexivity|].
  split; [exact Hne|].
  split; [exact (refusal_is_exact_match Sim.platform 0 _ "/work" options s Hne)|].
  split; vm_compute; reflexivity.
Defined.

(** Equality of canonical forms is literal.  [normalize] keeps a trailing
    separator and [resolvePath] leaves an absolute input as it is, so the
    base directory written [/work/] has the canonical form [/work/], which
    is none of the protected paths of the base directory [/work]. *)
Lemma trailing_separator_is_not_protected :
  let options := {| allowMissing := false; refusePaths := None |} in
  Batch.canonicalOf Sim.platform Samples.plain "/work" "/work/" = "/work/"
  ∧ Batch.protectedPaths Sim.platform Samples.plain "/work" options = ["/"; "/work"]
  ∧ ¬ Batch.isProtected Sim.platform Samples.plain "/work" options "/work/"
  ∧ Batch.isProtected Sim.platform Samples.plain "/work" options "./".
Proof.
  intros options.
  split; [vm_compute; reflexivity|]. split; [vm_compute; reflexivity|].
  split; compute_done.
Qed.

(** C1, on the code.  The base directory written with a trailing separator
    is not refused.  [resolvePath] returns an absolute input as it is and
    [normalize] keeps the trailing separator, while the protected paths all
    go through [resolve], which drops it; so for the base directory [/work]
    the path [/work/] has the canonical form [/work/], which is not the
    protected [/work].  On every platform on which [/work/] exists, the
    batch [["/work/"]] is therefore handed to the moving part with the base
    directory as its one item, whereas the batch [["./"]], the same
    directory written relatively, is refused.  On the sample machine the
    batch [a.txt], [/work/] returns no error and ends with the rename of the
    base directory into the trash. *)
Theorem base_directory_with_separator_is_trashed :
  let options := {| allowMissing := false; refusePaths := None |} in
  (∀ World (os : Platform World) fuel (s : Trash.State World),
     existsSync os (world s) "/work/" = true →
     movePathsToTrash os fuel ["/work/"] "/work" options s
     = trashExisting os fuel [] [{| raw := "/work/"; absolute := "/work/" |}] s)
  ∧ (∀ World (os : Platform World) fuel (s : Trash.State World),
       movePathsToTrash os fuel ["./"] "/work" options s
       = (Returned {| missing := [];
                      errors := ["Refusing to trash protected path: ./"] |}, s))
  ∧ (let run :=
       movePathsToTrash Sim.platform 1 ["a.txt"; "/work/"] "/work" options
         (Sim.fresh Samples.spelled) in
     run.1 = Returned {| missing := []; errors := [] |}
     ∧ drop 10 (calls run.2)
       = [CallRename "/work/a.txt" "/home/u/.Trash/a.txt";
          CallRename "/work/" "/home/u/.Trash/work"]
     ∧ Sim.files (world run.2) !! "/work/" = None
     ∧ Sim.files (world run.2) !! "/home/u/.Trash/work" = Some "").
Proof.
  intros options. split; [|split].
  - intros World os fuel s Hpresent.
    rewrite movePathsToTrash_sorted.
    + unfold Batch.missingOf, Batch.existingOf. cbn [allowMissing options].
      assert (Batch.presentIn os (world s) "/work" "/work/") as Hin by exact Hpresent.
      rewrite (filter_cons_True (Batch.presentIn os (world s) "/work")) by exact Hin.
      rewrite (filter_cons_False (λ rawPath, ¬ Batch.presentIn os (world s) "/work" rawPath))
        by (intros Hout; exact (Hout Hin)).
      reflexivity.
    + constructor; [|constructor]. unfold Batch.isProtected.
      vm_compute. intros Hin. repeat (apply elem_of_cons in Hin as [Hin|Hin];
        [discriminate|]). inversion Hin.
  - intros World os fuel s.
    apply (movePathsToTrash_refused os fuel "/work" options [] "./" [] s).
    + constructor.
    + unfold Batch.isProtected. vm_compute. apply list_elem_of_further, list_elem_of_here.
  - vm_compute. repeat split.
Qed.

(** Witness of C9, on the sample machine whose trash already holds [a.txt]
    and [a.txt-1700]: the third name tried is free. *)
Lemma buildTrashTarget_terminates_witness :
  (∀ name, Path.properName name →
           existsSync Sim.platform Samples.crowded
             (Path.join ["/home/u/.Trash"; name]) = true →
           name ∈ Sim.entryNames Samples.crowded "/home/u/.Trash")
  ∧ ((∃ target,
        (∀ fuel,
           S (List.length (Sim.entryNames Samples.crowded "/home/u/.Trash")) ≤ fuel →
           buildTrashTarget Sim.platform fuel "/home/u/.Trash" "/work/a.txt"
             (Sim.fresh Samples.crowded)
           = (Returned target, Sim.fresh Samples.crowded))
        ∧ existsSync Sim.platform Samples.crowded target = false)
     ∧ (∀ k1 k2,
          Naming.trashName (Path.basename "/work/a.txt") 1700 k1
          = Naming.trashName (Path.basename "/work/a.txt") 1700 k2 →
          k1 = k2))
  ∧ buildTrashTarget Sim.platform 2 "/home/u/.Trash" "/work/a.txt"
      (Sim.fresh Samples.crowded)
    = (Returned "/home/u/.Trash/a.txt-1700-1", Sim.fresh Samples.crowded).
Proof.
  split; [intros name; apply SimFacts.entries_listed|].
  split; [|vm_compute; reflexivity].
  apply (buildTrashTarget_terminates Sim.platform "/home/u/.Trash" "/work/a.txt"
           (Sim.fresh Samples.crowded)).
  intros name. apply SimFacts.entries_listed.
Defined.

End TrashFacts.

(** * More of the script

    What follows covers the parts of [trash.ts] around the ones above: the
    exits of [movePathsToTrash] that come before the moving, the outcomes of
    the helper, the candidates of the probe, the cache, and
    [readProcessStream]. *)

Module More.

(** The text [readProcessStream] makes of a stream: what the [text] method
    resolves to where there is one and it succeeds, else what a [Response]
    reads from an object, else nothing. *)
Definition streamText (stream : Stream) : string :=
  match stream with
  | FalsyStream => ""
  | TruthyStream value =>
      match textMethod value with
      | Some (inr (Some text)) => text
      | Some (inr None) => ""
      | _ =>
          if isObject value then
            match responseText value with
            | inr text => text
            | inl _ => ""
            end
          else ""
      end
  end.

(** The call that probes a candidate. *)
Definition probeCall (candidate : string) : Call :=
  CallSpawn [candidate; "--help"].

(** Whether a call spawns a program. *)
Definition isSpawn (call : Call) : Prop :=
  match call with
  | CallSpawn _ => True
  | _ => False
  end.

(** A result with its [missing] replaced. *)
Definition withMissing (absent : list string) (result : MoveResult) : MoveResult :=
  {| missing := absent; errors := errors result |}.

Definition mapOutcome {A B} (f : A → B) (outcome : Outcome A) : Outcome B :=
  match outcome with
  | Returned a => Returned (f a)
  | Threw e => Threw e
  | Diverged => Diverged
  end.

(** The entries of [errors] for the items that failed, each with the value
    it failed with. *)
Definition failureEntries (failed : list (Item * Thrown)) : list string :=
  map (λ '(item, error), Batch.failureEntry item error) failed.

(** The items that failed among items given with how each ended. *)
Definition failuresOf (outcomes : list (Item * option Thrown))
    : list (Item * Thrown) :=
  omap (λ '(item, failure), (λ error, (item, error)) <$> failure) outcomes.

(** How each item of the direct fallback ends, from the platform: for each
    item in turn, the destination [buildTrashTarget] chooses in the state
    the items before it have left, and what [Batch.attemptMove] then gives
    for that source and destination: the failure the attempt ends with, if
    any.  The list stops at an item whose destination is not found. *)
Fixpoint outcomesOf {World} (os : Platform World) (fuel : nat) (trashDir : string)
    (existing : list Item) (s : Trash.State World) : list (Item * option Thrown) :=
  match existing with
  | [] => []
  | item :: rest =>
      match Trash.buildTrashTarget os fuel trashDir (absolute item) s with
      | (Returned target, _) =>
          let '(failure, w', new) :=
            Batch.attemptMove os (Trash.world s) (absolute item) target in
          (item, failure) :: outcomesOf os fuel trashDir rest (Batch.after s w' new)
      | _ => []
      end
  end.

(** The candidates made of one name: the bare name, then the name in each
    directory. *)
Definition candidatesOf (name : string) (dirs : list string) : list string :=
  name :: map (λ dir, Path.join [dir; name]) dirs.

(** The options of a caller that wants to hear of missing paths and
    protects nothing beyond the defaults. *)
Definition strict : Options := {| allowMissing := false; refusePaths := None |}.

(** A state of the concrete machine in which the probe is over. *)
Definition warm (w : Sim.World) (cached : Cached) : Trash.State Sim.World :=
  {| Trash.world := w; Trash.cachedTrashCliCommand := cached; Trash.calls := [] |}.

(** [Samples.plain] with a helper [/usr/bin/trash] that refuses what it is
    given: status 1 and a message on its standard error. *)
Definition loudHelper : Sim.World := {|
  Sim.workingDirectory := Sim.workingDirectory Samples.plain;
  Sim.variables := Sim.variables Samples.plain;
  Sim.clock := Sim.clock Samples.plain;
  Sim.files := Sim.files Samples.plain;
  Sim.otherDevice := [];
  Sim.locked := [];
  Sim.programs :=
    {[ "/usr/bin/trash" := {| Sim.helpStatus := 0; Sim.runStatus := 1;
                              Sim.errorText := "  trash: permission denied
";
                              Sim.takesPaths := false |} ]};
|}.

(** [Samples.plain] without the variable [HOME]. *)
Definition homeless : Sim.World := {|
  Sim.workingDirectory := Sim.workingDirectory Samples.plain;
  Sim.variables := {[ "PATH" := "/usr/bin:/bin" ]};
  Sim.clock := Sim.clock Samples.plain;
  Sim.files := Sim.files Samples.plain;
  Sim.otherDevice := [];
  Sim.locked := [];
  Sim.programs := ∅;
|}.

End More.

Module MoreFacts.
Import Trash Batch TrashFacts More.
Local Open Scope trash_scope.
Local Open Scope nat_scope.

Section WithPlatform.

Context {World : Type} (os : Platform World).

Local Abbreviation State := (Trash.State World).
Local Abbreviation absoluteOf := (Batch.absoluteOf os).
Local Abbreviation canonicalOf := (Batch.canonicalOf os).
Local Abbreviation protectedPaths := (Batch.protectedPaths os).
Local Abbreviation isProtected := (Batch.isProtected os).
Local Abbreviation presentIn := (Batch.presentIn os).
Local Abbreviation missingOf := (Batch.missingOf os).
Local Abbreviation existingOf := (Batch.existingOf os).
Local Abbreviation attemptMove := (Batch.attemptMove os).
Local Abbreviation after := (@Batch.after World).

(** ** [readProcessStream] *)

Lemma readProcessStream_text stream (s : State) :
  readProcessStream stream s = (Returned (streamText stream), s).
Proof.
  destruct stream as [|[[[error|[text|]]|] [|] [error'|text']]]; reflexivity.
Qed.

(** X7.  [readProcessStream] never throws and never touches the state: a
    missing stream, a [text] method that throws or resolves to nothing, and
    a [Response] that cannot be read all end in a string, the empty one
    where nothing could be read. *)
Theorem readProcessStream_never_throws stream (s : State) :
  readProcessStream stream s = (Returned (streamText stream), s).
Proof. apply readProcessStream_text. Qed.

(** ** The exits before the moving *)

Lemma filter_all {A} (P : A → Prop) `{!∀ x, Decision (P x)} (l : list A) :
  Forall P l → filter P l = l.
Proof.
  induction 1 as [|x l Hx _ IH]; [reflexivity|].
  rewrite filter_cons_True by exact Hx. rewrite IH. reflexivity.
Qed.

Lemma filter_none {A} (P : A → Prop) `{!∀ x, Decision (P x)} (l : list A) :
  Forall (λ x, ¬ P x) l → filter P l = [].
Proof.
  induction 1 as [|x l Hx _ IH]; [reflexivity|].
  rewrite filter_cons_False by exact Hx. exact IH.
Qed.

(** X1.  A batch without protected path in which no path exists returns at
    once: the result reports every path as missing (none when
    [allowMissing] is true) and no error, and the state is the one before,
    so the probe has not run, nothing was spawned and the cache is as it
    was. *)
Theorem nothing_to_move_returns_at_once fuel paths baseDir options (s : State) :
  Forall (λ rawPath, canonicalOf (world s) baseDir rawPath
                     ∉ protectedPaths (world s) baseDir options) paths →
  Forall (λ rawPath, ¬ presentIn (world s) baseDir rawPath) paths →
  movePathsToTrash os fuel paths baseDir options s
  = (Returned {| missing := if allowMissing options then [] else paths;
                 errors := [] |}, s).
Proof.
  intros Hfree Habsent.
  rewrite movePathsToTrash_sorted by exact Hfree.
  unfold Batch.existingOf, Batch.missingOf.
  rewrite (filter_none (presentIn (world s) baseDir)) by exact Habsent.
  rewrite (filter_all (λ p, ¬ presentIn (world s) baseDir p)) by exact Habsent.
  reflexivity.
Qed.

(** ** The helper *)

(** The batch of a state in which the helper block is entered: no protected
    path, something to move, and a command found that is not empty. *)
Lemma trashExisting_with_helper fuel absent existing (s s1 : State) command :
  existing ≠ [] →
  findTrashCliCommand os s = (Returned (Some command), s1) →
  command ≠ "" →
  trashExisting os fuel absent existing s
  = match runTrashCli os command absent existing s1 with
    | (Returned (Some result), s2) => (Returned result, s2)
    | (Returned None, s2) => moveDirectly os fuel absent existing s2
    | (Threw error, s2) => (Threw error, s2)
    | (Diverged, s2) => (Diverged, s2)
    end.
Proof.
  intros Hsome Hfound Hcommand. unfold trashExisting.
  destruct existing as [|item rest]; [destruct Hsome; reflexivity|].
  cbn [List.length Nat.eqb]. unfold bind at 1. rewrite Hfound.
  unfold Js.truthy. apply String.eqb_neq in Hcommand as ->. cbn [negb].
  unfold bind.
  destruct (runTrashCli os command absent (item :: rest) s1) as [[[result|]| |] s2];
    reflexivity.
Qed.

Lemma runTrashCli_spawned command absent existing (s : State) proc w :
  spawn os (world s) (command :: map absolute existing) Pipe = (inr proc, w) →
  runTrashCli os command absent existing s
  = let s1 := after s w [CallSpawn (command :: map absolute existing)] in
    match exited proc with
    | inl error =>
        (Returned (Some {| missing := absent; errors := [formatTrashError error] |}), s1)
    | inr exitCode =>
        if (exitCode =? 0)%Z then
          (Returned (Some {| missing := absent; errors := [] |}), s1)
        else if bool_decide (0 < String.length (Js.trim (streamText (stderr proc)))) then
          (Returned (Some {| missing := absent;
                             errors := [Js.trim (streamText (stderr proc))] |}), s1)
        else (Returned None, s1)
    end.
Proof.
  intros Hspawn. unfold runTrashCli. unfold tryCatch at 1. unfold bind at 1.
  unfold spawnM, callWorld. rewrite Hspawn.
  unfold bind at 1. rewrite readProcessStream_text.
  unfold bind, await.
  destruct (exited proc) as [error|exitCode]; [reflexivity|].
  unfold ret. destruct (exitCode =? 0)%Z; [reflexivity|].
  destruct (bool_decide _); reflexivity.
Qed.

Lemma runTrashCli_not_spawned command absent existing (s : State) error w :
  spawn os (world s) (command :: map absolute existing) Pipe = (inl error, w) →
  runTrashCli os command absent existing s
  = (Returned (Some {| missing := absent; errors := [formatTrashError error] |}),
     after s w [CallSpawn (command :: map absolute existing)]).
Proof.
  intros Hspawn. unfold runTrashCli. unfold tryCatch at 1. unfold bind at 1.
  unfold spawnM, callWorld. rewrite Hspawn. reflexivity.
Qed.

Lemma existingOf_not_nil (w : World) baseDir paths rawPath :
  rawPath ∈ paths → presentIn w baseDir rawPath → existingOf w baseDir paths ≠ [].
Proof.
  intros Hin Hpresent Hnil. unfold Batch.existingOf in Hnil.
  apply fmap_nil_inv in Hnil.
  assert (rawPath ∈ filter (presentIn w baseDir) paths) as Hfiltered
    by (apply list_elem_of_filter; split; assumption).
  rewrite Hnil in Hfiltered. inversion Hfiltered.
Qed.

(** X2.  The helper succeeds.  In a batch without protected path with
    something to move, when a command is found and the helper, spawned once
    with the command and the absolute paths of everything to move, exits
    with status 0, the result has no error whatever the helper wrote, and
    the only call made after the probe is that spawn: the script itself
    renames, copies and removes nothing, and does not look for the trash
    directory. *)
Theorem helper_success_is_the_whole_move fuel paths baseDir options
    (s s1 : State) rawPath command proc w :
  Forall (λ p, canonicalOf (world s) baseDir p
               ∉ protectedPaths (world s) baseDir options) paths →
  rawPath ∈ paths → presentIn (world s) baseDir rawPath →
  findTrashCliCommand os s = (Returned (Some command), s1) →
  command ≠ "" →
  spawn os (world s1) (command :: map absolute (existingOf (world s) baseDir paths))
    Pipe = (inr proc, w) →
  exited proc = inr 0%Z →
  movePathsToTrash os fuel paths baseDir options s
  = (Returned {| missing := missingOf (world s) baseDir options paths; errors := [] |},
     after s1 w [CallSpawn (command :: map absolute (existingOf (world s) baseDir paths))]).
Proof.
  intros Hfree Hin Hpresent Hfound Hcommand Hspawn Hexit.
  rewrite movePathsToTrash_sorted by exact Hfree.
  rewrite (trashExisting_with_helper _ _ _ _ _ _
             (existingOf_not_nil _ _ _ _ Hin Hpresent) Hfound Hcommand).
  rewrite (runTrashCli_spawned _ _ _ _ _ _ Hspawn), Hexit. reflexivity.
Qed.

(** X3.  The helper fails and says why.  When the helper exits with a
    status other than 0 and its standard error, trimmed, is not empty, the
    result carries that trimmed text as its only error; the direct fallback
    is not tried. *)
Theorem helper_failure_is_reported fuel paths baseDir options
    (s s1 : State) rawPath command proc w exitCode :
  Forall (λ p, canonicalOf (world s) baseDir p
               ∉ protectedPaths (world s) baseDir options) paths →
  rawPath ∈ paths → presentIn (world s) baseDir rawPath →
  findTrashCliCommand os s = (Returned (Some command), s1) →
  command ≠ "" →
  spawn os (world s1) (command :: map absolute (existingOf (world s) baseDir paths))
    Pipe = (inr proc, w) →
  exited proc = inr exitCode → exitCode ≠ 0%Z →
  Js.trim (streamText (stderr proc)) ≠ "" →
  movePathsToTrash os fuel paths baseDir options s
  = (Returned {| missing := missingOf (world s) baseDir options paths;
                 errors := [Js.trim (streamText (stderr proc))] |},
     after s1 w [CallSpawn (command :: map absolute (existingOf (world s) baseDir paths))]).
Proof.
  intros Hfree Hin Hpresent Hfound Hcommand Hspawn Hexit Hstatus Htext.
  rewrite movePathsToTrash_sorted by exact Hfree.
  rewrite (trashExisting_with_helper _ _ _ _ _ _
             (existingOf_not_nil _ _ _ _ Hin Hpresent) Hfound Hcommand).
  rewrite (runTrashCli_spawned _ _ _ _ _ _ Hspawn), Hexit.
  apply Z.eqb_neq in Hstatus as ->.
  rewrite bool_decide_eq_true_2; [reflexivity|].
  destruct (Js.trim (streamText (stderr proc))); [destruct Htext; reflexivity|].
  cbn. lia.
Qed.

(** X4.  The helper cannot be run.  When the spawn of the helper throws, or
    the promise of its exit rejects, the result carries the message of what
    was thrown ([formatTrashError]) as its only error; the direct fallback
    is not tried. *)
Theorem helper_that_throws_is_reported fuel paths baseDir options
    (s s1 : State) rawPath command error w :
  Forall (λ p, canonicalOf (world s) baseDir p
               ∉ protectedPaths (world s) baseDir options) paths →
  rawPath ∈ paths → presentIn (world s) baseDir rawPath →
  findTrashCliCommand os s = (Returned (Some command), s1) →
  command ≠ "" →
  (spawn os (world s1) (command :: map absolute (existingOf (world s) baseDir paths))
     Pipe = (inl error, w)
   ∨ ∃ proc,
       spawn os (world s1) (command :: map absolute (existingOf (world s) baseDir paths))
         Pipe = (inr proc, w)
       ∧ exited proc = inl error) →
  movePathsToTrash os fuel paths baseDir options s
  = (Returned {| missing := missingOf (world s) baseDir options paths;
                 errors := [formatTrashError error] |},
     after s1 w [CallSpawn (command :: map absolute (existingOf (world s) baseDir paths))]).
Proof.
  intros Hfree Hin Hpresent Hfound Hcommand Hthrows.
  rewrite movePathsToTrash_sorted by exact Hfree.
  rewrite (trashExisting_with_helper _ _ _ _ _ _
             (existingOf_not_nil _ _ _ _ Hin Hpresent) Hfound Hcommand).
  destruct Hthrows as [Hspawn|(proc & Hspawn & Hexit)].
  - rewrite (runTrashCli_not_spawned _ _ _ _ _ _ Hspawn). reflexivity.
  - rewrite (runTrashCli_spawned _ _ _ _ _ _ Hspawn), Hexit. reflexivity.
Qed.

(** ** The trash directory *)

(** What [getTrashDirectory] finds in a world. *)
Lemma getTrashDirectory_finds (s : State) :
  getTrashDirectory os s
  = (Returned
       (match env os (world s) "HOME" with
        | Some home =>
            if bool_decide (home ≠ "")
               && existsSync os (world s) (Path.join [home; ".Trash"])
            then Some (Path.join [home; ".Trash"])
            else None
        | None => None
        end), s).
Proof.
  unfold getTrashDirectory. unfold_computation.
  destruct (env os (world s) "HOME") as [home|]; [|reflexivity].
  unfold Js.truthy. destruct (String.eqb_spec home "") as [->|Hhome].
  - reflexivity.
  - rewrite bool_decide_eq_true_2 by exact Hhome. cbn [negb andb].
    destruct (existsSync os (world s) (Path.join [home; ".Trash"])); reflexivity.
Qed.

(** X5.  Without a trash directory nothing is moved.  [getTrashDirectory]
    finds a directory exactly when [HOME] is set and not empty and
    [join(HOME, ".Trash")] exists, and it is then that path.  In a batch
    without protected path with something to move, when it is known that
    there is no helper and no trash directory is found, the result carries
    the one error ["Unable to locate macOS Trash directory (HOME/.Trash)."]
    and the state is the one before: no call was made, whatever the batch
    holds. *)
Theorem no_trash_directory_no_move fuel paths baseDir options (s : State) rawPath :
  (∀ s0 : State, ∀ trashDir,
     getTrashDirectory os s0 = (Returned (Some trashDir), s0)
     ↔ ∃ home, env os (world s0) "HOME" = Some home
               ∧ home ≠ ""
               ∧ trashDir = Path.join [home; ".Trash"]
               ∧ existsSync os (world s0) trashDir = true)
  ∧ (Forall (λ p, canonicalOf (world s) baseDir p
                  ∉ protectedPaths (world s) baseDir options) paths →
     rawPath ∈ paths → presentIn (world s) baseDir rawPath →
     cachedTrashCliCommand s = Null →
     getTrashDirectory os s = (Returned None, s) →
     movePathsToTrash os fuel paths baseDir options s
     = (Returned {| missing := missingOf (world s) baseDir options paths;
                    errors := ["Unable to locate macOS Trash directory (HOME/.Trash)."] |},
        s)).
Proof.
  split.
  - intros s0 trashDir. rewrite getTrashDirectory_finds. split.
    + destruct (env os (world s0) "HOME") as [home|]; [|discriminate].
      destruct (bool_decide_reflect (home ≠ "")) as [Hhome|Hhome]; [|discriminate].
      cbn [andb].
      destruct (existsSync os (world s0) (Path.join [home; ".Trash"])) eqn:Hexists;
        [|discriminate].
      intros [= <-]. eauto.
    + intros (home & -> & Hhome & -> & ->).
      rewrite bool_decide_eq_true_2 by exact Hhome. reflexivity.
  - intros Hfree Hin Hpresent Hcached Hdir.
    rewrite movePathsToTrash_sorted by exact Hfree.
    unfold trashExisting.
    pose proof (existingOf_not_nil _ _ _ _ Hin Hpresent) as Hsome.
    destruct (existingOf (world s) baseDir paths) as [|item rest];
      [destruct Hsome; reflexivity|].
    cbn [List.length Nat.eqb]. unfold bind at 1.
    rewrite (findTrashCliCommand_warm os s None) by exact Hcached.
    unfold bind at 1. unfold ret at 1. unfold moveDirectly, bind.
    rewrite Hdir. reflexivity.
Qed.

(** ** Nothing is thrown *)

Lemma moveDirectly_never_throws fuel absent existing (s : State) error s' :
  moveDirectly os fuel absent existing s ≠ (Threw error, s').
Proof.
  unfold moveDirectly, bind. rewrite getTrashDirectory_finds.
  destruct (match env os (world s) "HOME" with Some _ => _ | None => _ end)
    as [trashDir|]; [|discriminate].
  destruct (moveItems os fuel trashDir existing [] s) as [[errors'|thrown|] s1] eqn:Hrun;
    try discriminate.
  destruct (moveItems_never_throws os _ _ _ _ _ _ _ Hrun).
Qed.

Lemma trashExisting_never_throws fuel absent existing (s : State) error s' :
  trashExisting os fuel absent existing s ≠ (Threw error, s').
Proof.
  unfold trashExisting. destruct (List.length existing =? 0); [discriminate|].
  unfold bind at 1.
  destruct (findTrashCliCommand_returns os s) as (found & s1 & ->).
  destruct found as [command|]; [destruct (Js.truthy command)|].
  - unfold bind.
    destruct (runTrashCli_outcome os command absent existing s1)
      as ([result|] & s2 & -> & _); [discriminate|].
    apply moveDirectly_never_throws.
  - unfold bind, ret. apply moveDirectly_never_throws.
  - unfold bind, ret. apply moveDirectly_never_throws.
Qed.

Lemma movePathsToTrash_catches_all fuel paths baseDir options (s : State) error s' :
  movePathsToTrash os fuel paths baseDir options s ≠ (Threw error, s').
Proof.
  destruct (decide (Forall (λ rawPath, ¬ isProtected (world s) baseDir options rawPath)
                           paths)) as [Hfree|Hsome].
  - rewrite movePathsToTrash_sorted by exact Hfree.
    apply trashExisting_never_throws.
  - apply not_Forall_Exists, Exists_exists in Hsome as (rawPath & Hin & Hbad);
      [|apply _].
    apply dec_stable in Hbad.
    destruct (first_protected os (world s) baseDir options paths rawPath Hin Hbad)
      as (before & offending & rest & -> & Hfree & Hoff).
    rewrite movePathsToTrash_refused by assumption. discriminate.
Qed.

(** X6.  [movePathsToTrash] never throws: whatever the platform does,
    whatever the spawns, renames, copies and removals throw, the promise it
    returns is never rejected.  Every failure ends up in [errors]: a call
    that ends returns a result. *)
Theorem movePathsToTrash_never_throws fuel paths baseDir options (s : State) :
  ∃ outcome s',
    movePathsToTrash os fuel paths baseDir options s = (outcome, s')
    ∧ (outcome = Diverged ∨ ∃ result, outcome = Returned result).
Proof.
  destruct (movePathsToTrash os fuel paths baseDir options s)
    as [[result|error|] s'] eqn:Hrun.
  - exists (Returned result), s'. eauto.
  - destruct (movePathsToTrash_catches_all _ _ _ _ _ _ _ Hrun).
  - exists Diverged, s'. auto.
Qed.

(** ** The candidates of the probe *)

Lemma setAdd_elem set x y : y ∈ Js.setAdd set x ↔ y ∈ set ∨ y = x.
Proof.
  unfold Js.setAdd. case_bool_decide as Hin.
  - split; [auto|]. intros [Hy| ->]; assumption.
  - rewrite elem_of_app, list_elem_of_singleton. reflexivity.
Qed.

Lemma setAdd_NoDup set x : NoDup set → NoDup (Js.setAdd set x).
Proof.
  intros Hset. unfold Js.setAdd. case_bool_decide as Hin; [exact Hset|].
  apply NoDup_app. split; [exact Hset|]. split; [|apply NoDup_singleton].
  intros y Hy ->%list_elem_of_singleton. contradiction.
Qed.

Lemma setAdd_extends set x :
  ∃ more, Js.setAdd set x = set ++ more ∧ ∀ y, y ∈ more → y = x.
Proof.
  unfold Js.setAdd. case_bool_decide.
  - exists []. split; [rewrite app_nil_r; reflexivity|]. intros y Hy. inversion Hy.
  - exists [x]. split; [reflexivity|]. intros y Hy%list_elem_of_singleton. exact Hy.
Qed.

(** Adding the images of a list to a [Set], one after the other. *)
Lemma foldl_setAdd {A} (f : A → string) (l : list A) :
  ∀ set,
    NoDup set →
    NoDup (foldl (λ acc a, Js.setAdd acc (f a)) set l)
    ∧ (∀ y, y ∈ foldl (λ acc a, Js.setAdd acc (f a)) set l
            ↔ y ∈ set ∨ y ∈ map f l)
    ∧ ∃ more, foldl (λ acc a, Js.setAdd acc (f a)) set l = set ++ more
              ∧ ∀ y, y ∈ more → y ∈ map f l.
Proof.
  induction l as [|a l IH]; intros set Hset; cbn [foldl map].
  - split; [exact Hset|]. split.
    + intros y. split; [auto|]. intros [Hy|Hy]; [exact Hy|inversion Hy].
    + exists []. split; [rewrite app_nil_r; reflexivity|]. intros y Hy. inversion Hy.
  - destruct (IH (Js.setAdd set (f a)) (setAdd_NoDup _ _ Hset))
      as (Hnodup & Helem & more & Hmore & Hfrom).
    split; [exact Hnodup|]. split.
    + intros y. rewrite Helem, setAdd_elem, elem_of_cons. tauto.
    + destruct (setAdd_extends set (f a)) as (first & Hfirst & Hx).
      exists (first ++ more). split.
      * rewrite Hmore, Hfirst, app_assoc. reflexivity.
      * intros y [Hy|Hy]%elem_of_app.
        -- rewrite (Hx y Hy). apply list_elem_of_here.
        -- apply list_elem_of_further, Hfrom, Hy.
Qed.

Lemma candidatePaths_unfold dirs :
  candidatePaths dirs
  = foldl (λ acc dir, Js.setAdd acc (Path.join [dir; "trash"]))
      (Js.setAdd
         (foldl (λ acc dir, Js.setAdd acc (Path.join [dir; "trash-put"]))
            (Js.setAdd [] "trash-put") dirs)
         "trash")
      dirs.
Proof. reflexivity. Qed.

Lemma candidatesOf_elem name dirs c :
  c ∈ candidatesOf name dirs
  ↔ c = name ∨ c ∈ map (λ dir, Path.join [dir; name]) dirs.
Proof. unfold candidatesOf. apply elem_of_cons. Qed.

Lemma candidatePaths_shape dirs :
  NoDup (candidatePaths dirs)
  ∧ (∀ c, c ∈ candidatePaths dirs
          ↔ c ∈ candidatesOf "trash-put" dirs ∨ c ∈ candidatesOf "trash" dirs)
  ∧ ∃ first second,
      candidatePaths dirs = "trash-put" :: first ++ second
      ∧ (∀ c, c ∈ "trash-put" :: first ↔ c ∈ candidatesOf "trash-put" dirs)
      ∧ (∀ c, c ∈ second → c ∈ candidatesOf "trash" dirs).
Proof.
  rewrite candidatePaths_unfold.
  destruct (foldl_setAdd (λ dir, Path.join [dir; "trash-put"]) dirs
              (Js.setAdd [] "trash-put") (setAdd_NoDup _ _ (NoDup_nil_2)))
    as (Hnodup1 & Helem1 & more1 & Hmore1 & Hfrom1).
  set (stage1 := foldl _ (Js.setAdd [] "trash-put") dirs) in *.
  destruct (foldl_setAdd (λ dir, Path.join [dir; "trash"]) dirs
              (Js.setAdd stage1 "trash") (setAdd_NoDup _ _ Hnodup1))
    as (Hnodup2 & Helem2 & more2 & Hmore2 & Hfrom2).
  assert (∀ c, c ∈ stage1 ↔ c ∈ candidatesOf "trash-put" dirs) as Hstage1.
  { intros c. rewrite Helem1, candidatesOf_elem.
    change (Js.setAdd [] "trash-put") with ["trash-put"].
    rewrite list_elem_of_singleton. reflexivity. }
  split; [exact Hnodup2|]. split.
  - intros c. rewrite Helem2, setAdd_elem, Hstage1.
    rewrite (candidatesOf_elem "trash"). tauto.
  - destruct (setAdd_extends stage1 "trash") as (bare & Hbare & Hbare_is).
    exists more1, (bare ++ more2). split; [|split].
    + rewrite Hmore2, Hbare, Hmore1.
      change (Js.setAdd [] "trash-put") with ["trash-put"].
      rewrite <- !app_assoc. reflexivity.
    + intros c. rewrite <- Hstage1, Hmore1. reflexivity.
    + intros c [Hc|Hc]%elem_of_app.
      * rewrite (Hbare_is c Hc). apply list_elem_of_here.
      * apply list_elem_of_further, Hfrom2, Hc.
Qed.

(** X8.  The candidates of the probe.  Whatever the search directories,
    the list of candidates holds no path twice, so no program is probed
    twice; it holds exactly the two names [trash-put] and [trash], bare and
    joined to each search directory; and it prefers [trash-put]: the bare
    [trash-put] comes first, and every candidate for [trash-put] comes
    before the candidates that are only candidates for [trash]. *)
Theorem candidatePaths_are_ordered_and_distinct dirs :
  NoDup (candidatePaths dirs)
  ∧ (∀ c, c ∈ candidatePaths dirs
          ↔ c ∈ candidatesOf "trash-put" dirs ∨ c ∈ candidatesOf "trash" dirs)
  ∧ ∃ first second,
      candidatePaths dirs = "trash-put" :: first ++ second
      ∧ (∀ c, c ∈ "trash-put" :: first ↔ c ∈ candidatesOf "trash-put" dirs)
      ∧ (∀ c, c ∈ second → c ∈ candidatesOf "trash" dirs).
Proof. exact (candidatePaths_shape dirs). Qed.

Lemma truthy_iff text : Js.truthy text = true ↔ text ≠ "".
Proof.
  unfold Js.truthy. destruct (String.eqb_spec text ""); cbn; split; congruence.
Qed.

Lemma foldl_truthy_setAdd (l : list string) :
  ∀ set,
    NoDup set →
    NoDup (foldl (λ dirs segment,
                    if Js.truthy segment then Js.setAdd dirs segment else dirs) set l)
    ∧ ∀ y, y ∈ foldl (λ dirs segment,
                        if Js.truthy segment then Js.setAdd dirs segment else dirs) set l
           ↔ y ∈ set ∨ (y ∈ l ∧ y ≠ "").
Proof.
  induction l as [|a l IH]; intros set Hset; cbn [foldl].
  - split; [exact Hset|]. intros y. split; [auto|].
    intros [Hy|[Hy _]]; [exact Hy|inversion Hy].
  - destruct (truthy_iff a) as [Htrue Hfalse]. destruct (Js.truthy a).
    + destruct (IH (Js.setAdd set a) (setAdd_NoDup _ _ Hset)) as [Hnodup Helem].
      split; [exact Hnodup|].
      intros y. rewrite Helem, setAdd_elem, elem_of_cons. split; [|tauto].
      intros [[Hy| ->]|[Hy Hne]]; auto.
    + destruct (IH set Hset) as [Hnodup Helem]. split; [exact Hnodup|].
      intros y. rewrite Helem, elem_of_cons. split; [tauto|].
      intros [Hy|[[->|Hy] Hne]]; [auto| |auto].
      destruct (decide (a = "")) as [Hempty|Hfull]; [contradiction|].
      specialize (Hfalse Hfull). discriminate.
Qed.

Lemma normalize_not_empty path : Path.normalize path ≠ "".
Proof.
  unfold Path.normalize.
  destruct (String.eqb path ""); [discriminate|].
  destruct (String.eqb_spec (Path.normalizeString path (negb (Path.isAbsolute path))) "")
    as [_|Hbody].
  - destruct (Path.isAbsolute path), (Js.endsWith path "/"); discriminate.
  - destruct (Path.isAbsolute path); [discriminate|].
    destruct (Js.endsWith path "/"); [|exact Hbody].
    intros [Hnil _]%PathFacts.append_eq_nil. exact (Hbody Hnil).
Qed.

Lemma join_not_empty args : Path.join args ≠ "".
Proof.
  unfold Path.join. destruct (filter _ args); [discriminate|apply normalize_not_empty].
Qed.

(** X15.  The search directories.  They are, without repetition and with no
    empty entry: the segments of [PATH] that are not empty, then
    [<prefix>/opt/trash/bin] for the prefix in [HOMEBREW_PREFIX], or
    [/opt/homebrew] when the variable is not set, then
    [/usr/local/opt/trash/bin].  An unset or empty [PATH] gives the last
    two alone. *)
Theorem searchDirs_are_distinct_and_complete pathVar homebrewVar :
  let homebrew := Path.join [default "/opt/homebrew" homebrewVar; "opt"; "trash"; "bin"] in
  NoDup (searchDirs pathVar homebrewVar)
  ∧ (∀ dir, dir ∈ searchDirs pathVar homebrewVar
            ↔ (∃ path, pathVar = Some path ∧ dir ∈ Js.split ":" path ∧ dir ≠ "")
              ∨ dir = homebrew
              ∨ dir = "/usr/local/opt/trash/bin")
  ∧ ("" ∉ searchDirs pathVar homebrewVar)
  ∧ ((pathVar = None ∨ pathVar = Some "") →
     searchDirs pathVar homebrewVar
     = Js.setAdd [homebrew] "/usr/local/opt/trash/bin").
Proof.
  intros homebrew. unfold searchDirs. fold homebrew.
  set (fromPath := match pathVar with Some path => _ | None => [] end).
  assert (NoDup fromPath
          ∧ ∀ dir, dir ∈ fromPath
                   ↔ ∃ path, pathVar = Some path ∧ dir ∈ Js.split ":" path ∧ dir ≠ "")
    as [Hnodup Helem].
  { unfold fromPath. destruct pathVar as [path|].
    - destruct (truthy_iff path) as [Htrue Hfalse]. destruct (Js.truthy path).
      + destruct (foldl_truthy_setAdd (Js.split ":" path) [] (NoDup_nil_2))
          as [Hnodup Helem].
        split; [exact Hnodup|]. intros dir. rewrite Helem. split.
        * intros [Hin|[Hin Hne]]; [inversion Hin|]. eauto.
        * intros (path' & [= <-] & Hin & Hne). auto.
      + destruct (decide (path = "")) as [->|Hfull];
          [|specialize (Hfalse Hfull); discriminate].
        split; [constructor|]. intros dir. split; [intros Hin; inversion Hin|].
        intros (path & [= <-] & Hin & Hne). cbn in Hin.
        apply list_elem_of_singleton in Hin. contradiction.
    - split; [constructor|]. intros dir. split; [intros Hin; inversion Hin|].
      intros (path & Hnone & _). discriminate. }
  assert (∀ dir, dir ∈ Js.setAdd (Js.setAdd fromPath homebrew) "/usr/local/opt/trash/bin"
                 ↔ (∃ path, pathVar = Some path ∧ dir ∈ Js.split ":" path ∧ dir ≠ "")
                   ∨ dir = homebrew ∨ dir = "/usr/local/opt/trash/bin") as Hall.
  { intros dir. rewrite !setAdd_elem, Helem. tauto. }
  split; [apply setAdd_NoDup, setAdd_NoDup, Hnodup|]. split; [exact Hall|]. split.
  - intros [(path & _ & _ & Hne)|[Hempty|Hempty]]%Hall.
    + apply Hne. reflexivity.
    + symmetry in Hempty. exact (join_not_empty _ Hempty).
    + discriminate.
  - intros [->| ->]; reflexivity.
Qed.

(** X14.  A command found by a cold probe is one of the candidates and is
    never the empty string, so it passes the test [if (trashCliCommand)]:
    a helper that was found is always the one that is run. *)
Theorem found_command_is_used (s s' : State) command :
  cachedTrashCliCommand s = Undefined →
  findTrashCliCommand os s = (Returned (Some command), s') →
  command ∈ candidatePaths (searchDirs (env os (world s) "PATH")
                                       (env os (world s) "HOMEBREW_PREFIX"))
  ∧ command ≠ ""
  ∧ Js.truthy command = true
  ∧ cachedTrashCliCommand s' = Command command.
Proof.
  intros Hcold Hfound.
  rewrite (findTrashCliCommand_cold os s Hcold) in Hfound.
  destruct (probeCandidates_returns os
              (candidatePaths (searchDirs (env os (world s) "PATH")
                                          (env os (world s) "HOMEBREW_PREFIX"))) s)
    as (found & s1 & Hrun & Hcached & Hin).
  rewrite Hrun in Hfound. injection Hfound as -> ->.
  specialize (Hin command eq_refl).
  assert (command ≠ "") as Hne.
  { destruct (candidatePaths_are_ordered_and_distinct
                (searchDirs (env os (world s) "PATH")
                            (env os (world s) "HOMEBREW_PREFIX")))
      as (_ & Helem & _).
    apply Helem in Hin. rewrite !candidatesOf_elem in Hin.
    destruct Hin as [[->|Hin]|[->|Hin]]; try discriminate;
      apply list_elem_of_fmap in Hin as (dir & -> & _); apply join_not_empty. }
  split; [exact Hin|]. split; [exact Hne|]. split; [|exact Hcached].
  apply truthy_iff, Hne.
Qed.

(** ** The calls of the probe *)

Lemma probeCandidates_trace candidates :
  ∀ s : State,
    ∃ found s' tried rest,
      probeCandidates os candidates s = (Returned found, s')
      ∧ candidates = tried ++ rest
      ∧ calls s' = calls s ++ map probeCall tried
      ∧ match found with
        | Some command => last tried = Some command
        | None => rest = []
        end.
Proof.
  induction candidates as [|candidate later IH]; intros s.
  - exists None, {| world := world s; cachedTrashCliCommand := Null; calls := calls s |}, [], [].
    rewrite probeCandidates_nil. cbn. rewrite app_nil_r. auto.
  - rewrite probeCandidates_cons.
    destruct (spawn os (world s) [candidate; "--help"] Ignore) as [result w].
    destruct (qualifies result).
    + eexists (Some candidate), _, [candidate], later.
      split; [reflexivity|]. split; [reflexivity|]. split; reflexivity.
    + destruct (IH (after s w [CallSpawn [candidate; "--help"]]))
        as (found & s' & tried & rest & Hrun & -> & Hcalls & Hfound).
      exists found, s', (candidate :: tried), rest.
      split; [exact Hrun|]. split; [reflexivity|]. split.
      * rewrite Hcalls. cbn. rewrite <- app_assoc. reflexivity.
      * destruct found as [command|]; [|exact Hfound].
        destruct tried as [|next tried]; [discriminate|exact Hfound].
Qed.

(** X9.  What the probe runs.  [findTrashCliCommand] spawns nothing but
    candidates with the single argument [--help]: the calls it makes are the
    probes of an initial part of the candidates, in the order of the
    candidates and each at most once.  With the cache filled it makes no
    call at all; with the cache empty it stops at the candidate it returns,
    or has tried every candidate when it returns [null]. *)
Theorem probe_tries_candidates_in_order (s : State) :
  let candidates :=
    candidatePaths (searchDirs (env os (world s) "PATH")
                               (env os (world s) "HOMEBREW_PREFIX")) in
  ∃ found s' tried,
    findTrashCliCommand os s = (Returned found, s')
    ∧ calls s' = calls s ++ map probeCall tried
    ∧ tried `prefix_of` candidates
    ∧ NoDup tried
    ∧ (cachedTrashCliCommand s ≠ Undefined → tried = [] ∧ s' = s)
    ∧ (cachedTrashCliCommand s = Undefined →
       match found with
       | Some command => last tried = Some command
       | None => tried = candidates
       end).
Proof.
  intros candidates.
  destruct (cachedTrashCliCommand s) as [| |command] eqn:Hcached.
  - rewrite findTrashCliCommand_cold by exact Hcached. fold candidates.
    destruct (probeCandidates_trace candidates s)
      as (found & s' & tried & rest & Hrun & Hsplit & Hcalls & Hfound).
    exists found, s', tried. split; [exact Hrun|]. split; [exact Hcalls|].
    split; [exists rest; exact Hsplit|]. split.
    + destruct (candidatePaths_shape
                  (searchDirs (env os (world s) "PATH")
                              (env os (world s) "HOMEBREW_PREFIX"))) as [Hnodup _].
      fold candidates in Hnodup. rewrite Hsplit in Hnodup.
      apply NoDup_app in Hnodup as [Htried _]. exact Htried.
    + split; [intros Hwarm; contradiction|]. intros _.
      destruct found as [command|]; [exact Hfound|].
      rewrite Hsplit, Hfound, app_nil_r. reflexivity.
  - exists None, s, []. rewrite (findTrashCliCommand_warm os s None) by exact Hcached.
    cbn. rewrite app_nil_r.
    split; [reflexivity|]. split; [reflexivity|]. split; [apply prefix_nil|].
    split; [constructor|]. split; [auto|discriminate].
  - exists (Some command), s, [].
    rewrite (findTrashCliCommand_warm os s (Some command)) by exact Hcached.
    cbn. rewrite app_nil_r.
    split; [reflexivity|]. split; [reflexivity|]. split; [apply prefix_nil|].
    split; [constructor|]. split; [auto|discriminate].
Qed.

(** ** What the direct fallback leaves behind *)

Lemma after_nil (s : State) : after s (world s) [] = s.
Proof. destruct s. unfold Batch.after. cbn. rewrite app_nil_r. reflexivity. Qed.

Lemma attemptMove_spawns_nothing (w : World) src dst failure w' new :
  attemptMove w src dst = (failure, w', new) →
  Forall (λ call, ¬ isSpawn call) new.
Proof.
  unfold Batch.attemptMove.
  destruct (renameSync os w src dst) as [[error|] w1].
  - destruct (isCrossDeviceError error).
    + destruct (cpSync os w1 src dst) as [[error'|] w2].
      * intros [= _ _ <-]. repeat constructor; cbn; auto.
      * destruct (rmSync os w2 src) as [failure' w3].
        intros [= _ _ <-]. repeat constructor; cbn; auto.
    + intros [= _ _ <-]. repeat constructor; cbn; auto.
  - intros [= _ _ <-]. repeat constructor; cbn; auto.
Qed.

(** An item adds at most one entry to [errors], its own, and spawns
    nothing. *)
Lemma moveItem_trace fuel trashDir item errors (s : State) :
  ∃ outcome w' new,
    moveItem os fuel trashDir item errors s = (outcome, after s w' new)
    ∧ Forall (λ call, ¬ isSpawn call) new
    ∧ (outcome = Diverged
       ∨ outcome = Returned errors
       ∨ ∃ error, outcome = Returned (errors ++ [failureEntry item error])).
Proof.
  destruct (buildTrashTarget_outcome os fuel trashDir (absolute item) s)
    as (outcome & Hbuild & [->|(k & -> & _)]).
  - exists Diverged, (world s), []. rewrite after_nil.
    split; [apply moveItem_diverges, Hbuild|]. split; [constructor|auto].
  - rewrite (moveItem_attempt os fuel trashDir item errors s _ Hbuild).
    destruct (Batch.attemptMove os (world s) (absolute item) _)
      as [[failure w'] new] eqn:Hattempt.
    eexists _, w', new. split; [reflexivity|].
    split; [exact (attemptMove_spawns_nothing _ _ _ _ _ _ Hattempt)|].
    destruct failure as [error|]; eauto.
Qed.

Lemma moveItems_trace fuel trashDir existing :
  ∀ errors (s : State),
    ∃ outcome w' new,
      moveItems os fuel trashDir existing errors s = (outcome, after s w' new)
      ∧ Forall (λ call, ¬ isSpawn call) new
      ∧ (outcome = Diverged
         ∨ ∃ failed,
             outcome = Returned (errors ++ failureEntries failed)
             ∧ map fst failed `sublist_of` existing).
Proof.
  induction existing as [|item rest IH]; intros errors s.
  - exists (Returned errors), (world s), []. rewrite after_nil.
    split; [reflexivity|]. split; [constructor|]. right. exists [].
    cbn. rewrite app_nil_r. split; [reflexivity|constructor].
  - cbn [moveItems]. unfold bind.
    destruct (moveItem_trace fuel trashDir item errors s)
      as (outcome & w1 & new1 & -> & Hnew1 & Houtcome).
    destruct Houtcome as [->|[->|(error & ->)]].
    + exists Diverged, w1, new1. auto.
    + destruct (IH errors (after s w1 new1))
        as (outcome & w2 & new2 & -> & Hnew2 & Houtcome).
      exists outcome, w2, (new1 ++ new2). rewrite after_after.
      split; [reflexivity|]. split; [apply Forall_app; auto|].
      destruct Houtcome as [->|(failed & -> & Hsub)]; [auto|].
      right. exists failed. split; [reflexivity|].
      apply sublist_cons, Hsub.
    + destruct (IH (errors ++ [failureEntry item error]) (after s w1 new1))
        as (outcome & w2 & new2 & -> & Hnew2 & Houtcome).
      exists outcome, w2, (new1 ++ new2). rewrite after_after.
      split; [reflexivity|]. split; [apply Forall_app; auto|].
      destruct Houtcome as [->|(failed & -> & Hsub)]; [auto|].
      right. exists ((item, error) :: failed). split.
      * cbn. rewrite <- app_assoc. reflexivity.
      * cbn. apply sublist_skip, Hsub.
Qed.

(** The loop of the fallback ends each item as [outcomesOf] says: every
    item has its outcome, and [errors] grows by the entries of the items
    whose attempt failed, and by nothing else. *)
Lemma moveItems_outcomes fuel trashDir existing :
  ∀ errors (s : State) errors' s',
    moveItems os fuel trashDir existing errors s = (Returned errors', s') →
    map fst (outcomesOf os fuel trashDir existing s) = existing
    ∧ errors'
      = errors ++ failureEntries (failuresOf (outcomesOf os fuel trashDir existing s)).
Proof.
  induction existing as [|item rest IH]; intros errors s errors' s' Hrun.
  - cbn in Hrun. injection Hrun as <- _. cbn. rewrite app_nil_r. auto.
  - cbn [moveItems] in Hrun. unfold bind in Hrun. cbn [outcomesOf].
    destruct (buildTrashTarget_outcome os fuel trashDir (absolute item) s)
      as (outcome & Hbuild & [->|(k & -> & _)]).
    + rewrite (moveItem_diverges os _ _ _ _ _ Hbuild) in Hrun. discriminate.
    + rewrite (moveItem_attempt os _ _ _ _ _ _ Hbuild) in Hrun. rewrite Hbuild.
      destruct (Batch.attemptMove os (world s) (absolute item) _)
        as [[failure w'] new].
      destruct (IH _ _ _ _ Hrun) as [Hitems Herrors].
      cbn [map fst]. rewrite Hitems. split; [reflexivity|].
      rewrite Herrors. destruct failure as [error|]; cbn.
      * rewrite <- app_assoc. reflexivity.
      * reflexivity.
Qed.

Lemma failuresOf_sublist (outcomes : list (Item * option Thrown)) :
  map fst (failuresOf outcomes) `sublist_of` map fst outcomes.
Proof.
  induction outcomes as [|[item [error|]] rest IH]; cbn.
  - constructor.
  - apply sublist_skip, IH.
  - apply sublist_cons, IH.
Qed.

Lemma failuresOf_elem (outcomes : list (Item * option Thrown)) item error :
  (item, Some error) ∈ outcomes ↔ (item, error) ∈ failuresOf outcomes.
Proof.
  unfold failuresOf. rewrite list_elem_of_omap. split.
  - intros Hin. exists (item, Some error). split; [exact Hin|reflexivity].
  - intros ([item' [error'|]] & Hin & Heq); cbn in Heq; [|discriminate].
    injection Heq as -> ->. exact Hin.
Qed.

(** X10.  The errors of the direct fallback.  Where the fallback returns, it
    has either found no trash directory, and then moved nothing, or every
    item has been attempted and [errors] holds exactly the entries of the
    items whose attempt failed, one for each, in the order of the items:
    an item whose attempt (the rename, or after a cross-device failure the
    copy and the removal) ends with a failure has its entry
    ["Failed to move <raw path> to Trash: <reason>"], and an item whose
    attempt succeeds has none.  So there are never more errors than items.
    [missing] is handed on as it is, and no program is spawned. *)
Theorem fallback_errors_follow_the_items fuel absent existing (s : State) result s' :
  moveDirectly os fuel absent existing s = (Returned result, s') →
  missing result = absent
  ∧ ((getTrashDirectory os s = (Returned None, s)
      ∧ errors result = ["Unable to locate macOS Trash directory (HOME/.Trash)."]
      ∧ s' = s)
     ∨ (∃ trashDir new,
          let outcomes := outcomesOf os fuel trashDir existing s in
          getTrashDirectory os s = (Returned (Some trashDir), s)
          ∧ map fst outcomes = existing
          ∧ errors result = failureEntries (failuresOf outcomes)
          ∧ (∀ item error,
               (item, Some error) ∈ outcomes →
               Batch.failureEntry item error ∈ errors result)
          ∧ map fst (failuresOf outcomes) `sublist_of` existing
          ∧ List.length (errors result) ≤ List.length existing
          ∧ s' = after s (world s') new
          ∧ Forall (λ call, ¬ isSpawn call) new)).
Proof.
  unfold moveDirectly, bind.
  destruct (getTrashDirectory_reads os s) as (trashDir & Hdir). rewrite Hdir.
  destruct trashDir as [trashDir|].
  - destruct (moveItems_trace fuel trashDir existing [] s)
      as (outcome & w' & new & Hrun & Hnew & Houtcome).
    rewrite Hrun.
    destruct Houtcome as [->|(failed & -> & _)]; [discriminate|].
    destruct (moveItems_outcomes _ _ _ _ _ _ _ Hrun) as [Hitems Herrors].
    cbn [app] in Herrors.
    intros [= <- <-]. cbn [missing errors]. split; [reflexivity|]. right.
    exists trashDir, new. cbn zeta.
    pose proof (failuresOf_sublist (outcomesOf os fuel trashDir existing s)) as Hsub.
    rewrite Hitems in Hsub.
    split; [reflexivity|]. split; [exact Hitems|]. split; [exact Herrors|].
    split; [|split; [exact Hsub|split; [|split; [reflexivity|exact Hnew]]]].
    + intros item error Hin%failuresOf_elem. rewrite Herrors.
      unfold failureEntries. apply list_elem_of_fmap.
      exists (item, error). split; [reflexivity|exact Hin].
    + rewrite Herrors. unfold failureEntries. rewrite length_map.
      rewrite <- (length_map fst (failuresOf _)). apply sublist_length, Hsub.
  - intros [= <- <-]. cbn. auto.
Qed.

(** ** The cache and the spawns of a batch *)

Lemma movePathsToTrash_cases fuel paths baseDir options (s : State) :
  (∃ offending,
     offending ∈ paths
     ∧ movePathsToTrash os fuel paths baseDir options s
       = (Returned {| missing := [];
                      errors := ["Refusing to trash protected path: " +:+ offending] |},
          s))
  ∨ (Forall (λ rawPath, ¬ isProtected (world s) baseDir options rawPath) paths
     ∧ movePathsToTrash os fuel paths baseDir options s
       = trashExisting os fuel
           (missingOf (world s) baseDir options paths)
           (existingOf (world s) baseDir paths) s).
Proof.
  destruct (decide (Forall (λ rawPath, ¬ isProtected (world s) baseDir options rawPath)
                           paths)) as [Hfree|Hsome].
  - right. split; [exact Hfree|]. apply movePathsToTrash_sorted, Hfree.
  - left. apply not_Forall_Exists, Exists_exists in Hsome as (rawPath & Hin & Hbad);
      [|apply _].
    apply dec_stable in Hbad.
    destruct (first_protected os (world s) baseDir options paths rawPath Hin Hbad)
      as (before & offending & rest & -> & Hfree & Hoff).
    exists offending. split.
    + apply elem_of_app. right. apply list_elem_of_here.
    + apply movePathsToTrash_refused; assumption.
Qed.

Lemma moveDirectly_trace fuel absent existing (s : State) :
  ∃ outcome w' new,
    moveDirectly os fuel absent existing s = (outcome, after s w' new)
    ∧ Forall (λ call, ¬ isSpawn call) new.
Proof.
  unfold moveDirectly, bind.
  destruct (getTrashDirectory_reads os s) as (trashDir & Hdir). rewrite Hdir.
  destruct trashDir as [trashDir|].
  - destruct (moveItems_trace fuel trashDir existing [] s)
      as (outcome & w' & new & -> & Hnew & _).
    destruct outcome; eexists _, w', new; split; try reflexivity; exact Hnew.
  - eexists _, (world s), []. rewrite after_nil. split; [reflexivity|constructor].
Qed.

Lemma trashExisting_trace fuel absent existing (s : State) outcome s' :
  existing ≠ [] →
  trashExisting os fuel absent existing s = (outcome, s') →
  cachedTrashCliCommand s' ≠ Undefined
  ∧ (cachedTrashCliCommand s ≠ Undefined →
     cachedTrashCliCommand s' = cachedTrashCliCommand s)
  ∧ (cachedTrashCliCommand s = Null →
     ∃ new, s' = after s (world s') new ∧ Forall (λ call, ¬ isSpawn call) new).
Proof.
  intros Hsome. unfold trashExisting.
  destruct existing as [|item rest]; [contradiction|]. cbn [List.length Nat.eqb].
  unfold bind at 1.
  assert (∃ found s1,
            findTrashCliCommand os s = (Returned found, s1)
            ∧ cachedTrashCliCommand s1 = cachedAs found
            ∧ (cachedTrashCliCommand s ≠ Undefined → s1 = s))
    as (found & s1 & -> & Hs1 & Hsame).
  { destruct (cachedTrashCliCommand s) as [| |command] eqn:Hcached.
    - rewrite findTrashCliCommand_cold by exact Hcached.
      destruct (probeCandidates_returns os
                  (candidatePaths (searchDirs (env os (world s) "PATH")
                                              (env os (world s) "HOMEBREW_PREFIX"))) s)
        as (found & s1 & Hrun & Hs1 & _).
      exists found, s1. split; [exact Hrun|]. split; [exact Hs1|]. contradiction.
    - exists None, s. rewrite (findTrashCliCommand_warm os s None) by exact Hcached.
      auto.
    - exists (Some command), s.
      rewrite (findTrashCliCommand_warm os s (Some command)) by exact Hcached.
      auto. }
  assert (∀ s2 : State,
            moveDirectly os fuel absent (item :: rest) s2 = (outcome, s') →
            cachedTrashCliCommand s' = cachedTrashCliCommand s2
            ∧ ∃ new, s' = after s2 (world s') new
                     ∧ Forall (λ call, ¬ isSpawn call) new) as Hdirect.
  { intros s2 Hrun.
    destruct (moveDirectly_trace fuel absent (item :: rest) s2)
      as (outcome' & w' & new & Hrun' & Hnew).
    rewrite Hrun' in Hrun. injection Hrun as -> <-.
    split; [reflexivity|]. exists new. split; [reflexivity|exact Hnew]. }
  destruct found as [command|].
  - destruct (Js.truthy command).
    + unfold bind.
      destruct (runTrashCli_outcome os command absent (item :: rest) s1)
        as (early & s2 & -> & _ & Hcache2 & _).
      destruct early as [result|].
      * intros [= <- <-]. rewrite Hcache2, Hs1. cbn.
        split; [discriminate|]. split.
        -- intros Hwarm. rewrite (Hsame Hwarm) in Hs1. symmetry. exact Hs1.
        -- intros Hnull. rewrite (Hsame ltac:(rewrite Hnull; discriminate)) in Hs1.
           rewrite Hnull in Hs1. discriminate.
      * intros [Hcache Hcalls]%Hdirect. rewrite Hcache, Hcache2, Hs1. cbn.
        split; [discriminate|]. split.
        -- intros Hwarm. rewrite (Hsame Hwarm) in Hs1. symmetry. exact Hs1.
        -- intros Hnull. rewrite (Hsame ltac:(rewrite Hnull; discriminate)) in Hs1.
           rewrite Hnull in Hs1. discriminate.
    + unfold bind, ret. intros [Hcache Hcalls]%Hdirect. rewrite Hcache, Hs1. cbn.
      split; [discriminate|]. split.
      * intros Hwarm. rewrite (Hsame Hwarm) in Hs1. symmetry. exact Hs1.
      * intros Hnull. rewrite (Hsame ltac:(rewrite Hnull; discriminate)) in Hs1.
        rewrite Hnull in Hs1. discriminate.
  - unfold bind, ret. intros [Hcache Hcalls]%Hdirect. rewrite Hcache, Hs1. cbn.
    split; [discriminate|]. split.
    + intros Hwarm. rewrite (Hsame Hwarm) in Hs1. symmetry. exact Hs1.
    + intros Hnull. rewrite (Hsame ltac:(rewrite Hnull; discriminate)) in Hcalls.
      exact Hcalls.
Qed.

(** X11.  The cache is filled once and never emptied.  Whatever a batch
    does and however it ends, a cache that was filled before it holds the
    same value after it; and a cache that is still empty after it means that
    the batch did nothing at all: it was refused, or held nothing to move,
    and the state is the one it started in. *)
Theorem cache_is_filled_once fuel paths baseDir options (s : State) outcome s' :
  movePathsToTrash os fuel paths baseDir options s = (outcome, s') →
  (cachedTrashCliCommand s ≠ Undefined →
   cachedTrashCliCommand s' = cachedTrashCliCommand s)
  ∧ (cachedTrashCliCommand s' = Undefined → s' = s).
Proof.
  intros Hrun.
  destruct (movePathsToTrash_cases fuel paths baseDir options s)
    as [(offending & _ & Hrefused)|[_ Hsorted]].
  - rewrite Hrefused in Hrun. injection Hrun as _ <-. auto.
  - rewrite Hsorted in Hrun.
    destruct (existingOf (world s) baseDir paths) as [|item rest] eqn:Hexisting.
    + cbn in Hrun. injection Hrun as _ <-. auto.
    + destruct (trashExisting_trace fuel _ (item :: rest) s outcome s'
                  ltac:(discriminate) Hrun) as (Hfilled & Hkept & _).
      split; [exact Hkept|]. intros Hempty. contradiction.
Qed.

(** X12.  Without a helper nothing is spawned.  Once the probe has found no
    helper (the cache holds [null]), a batch spawns no program, however it
    ends: every call it makes is a rename, a copy or a removal, and the
    cache still holds [null] after it. *)
Theorem without_helper_nothing_is_spawned fuel paths baseDir options
    (s : State) outcome s' :
  cachedTrashCliCommand s = Null →
  movePathsToTrash os fuel paths baseDir options s = (outcome, s') →
  cachedTrashCliCommand s' = Null
  ∧ ∃ new,
      calls s' = calls s ++ new
      ∧ Forall (λ call, ¬ isSpawn call) new.
Proof.
  intros Hnull Hrun.
  destruct (movePathsToTrash_cases fuel paths baseDir options s)
    as [(offending & _ & Hrefused)|[_ Hsorted]].
  - rewrite Hrefused in Hrun. injection Hrun as _ <-.
    split; [exact Hnull|]. exists []. rewrite app_nil_r. split; [reflexivity|constructor].
  - rewrite Hsorted in Hrun.
    destruct (existingOf (world s) baseDir paths) as [|item rest] eqn:Hexisting.
    + cbn in Hrun. injection Hrun as _ <-.
      split; [exact Hnull|]. exists []. rewrite app_nil_r.
      split; [reflexivity|constructor].
    + destruct (trashExisting_trace fuel _ (item :: rest) s outcome s'
                  ltac:(discriminate) Hrun) as (_ & Hkept & Hcalls).
      split; [rewrite Hkept; [exact Hnull|rewrite Hnull; discriminate]|].
      destruct (Hcalls Hnull) as (new & Hs' & Hnew).
      exists new. split; [|exact Hnew]. rewrite Hs'. reflexivity.
Qed.

(** ** [allowMissing] *)

Lemma runTrashCli_missing command absent absent' existing (s : State) :
  runTrashCli os command absent existing s
  = let '(outcome, s') := runTrashCli os command absent' existing s in
    (mapOutcome (option_map (withMissing absent)) outcome, s').
Proof.
  unfold runTrashCli. unfold tryCatch, bind at 1 4. unfold spawnM, callWorld.
  destruct (spawn os (world s) (command :: map absolute existing) Pipe)
    as [[error|proc] w]; [reflexivity|].
  unfold bind at 1 3. rewrite !readProcessStream_text.
  unfold bind, await. destruct (exited proc) as [error|exitCode]; [reflexivity|].
  unfold ret. destruct (exitCode =? 0)%Z; [reflexivity|].
  case_bool_decide; reflexivity.
Qed.

Lemma moveDirectly_missing fuel absent absent' existing (s : State) :
  moveDirectly os fuel absent existing s
  = let '(outcome, s') := moveDirectly os fuel absent' existing s in
    (mapOutcome (withMissing absent) outcome, s').
Proof.
  unfold moveDirectly, bind.
  destruct (getTrashDirectory os s) as [[[trashDir|]| |] s1]; try reflexivity.
  destruct (moveItems os fuel trashDir existing [] s1) as [[errors'| |] s2];
    reflexivity.
Qed.

Lemma trashExisting_missing fuel absent absent' existing (s : State) :
  trashExisting os fuel absent existing s
  = let '(outcome, s') := trashExisting os fuel absent' existing s in
    (mapOutcome (withMissing absent) outcome, s').
Proof.
  unfold trashExisting. destruct (List.length existing =? 0); [reflexivity|].
  unfold bind at 1 3.
  destruct (findTrashCliCommand os s) as [[found| |] s1]; try reflexivity.
  assert (∀ s2 : State,
            moveDirectly os fuel absent existing s2
            = let '(outcome, s') := moveDirectly os fuel absent' existing s2 in
              (mapOutcome (withMissing absent) outcome, s')) as Hdirect
    by (intros s2; apply moveDirectly_missing).
  destruct found as [command|]; [destruct (Js.truthy command)|].
  - unfold bind. rewrite (runTrashCli_missing command absent absent').
    destruct (runTrashCli os command absent' existing s1) as [[[result|]| |] s2];
      cbn; try reflexivity.
    apply Hdirect.
  - unfold bind, ret. apply Hdirect.
  - unfold bind, ret. apply Hdirect.
Qed.

(** X13.  [allowMissing] changes nothing but [missing].  With
    [allowMissing: true] a batch ends as it does with [allowMissing: false],
    in the same state and with the same [errors]: the same paths are
    refused, the same items moved by the same calls.  The only difference
    is that [missing] is empty. *)
Theorem allowMissing_only_empties_missing fuel paths baseDir refuse (s : State) :
  movePathsToTrash os fuel paths baseDir
    {| allowMissing := true; refusePaths := refuse |} s
  = let '(outcome, s') :=
      movePathsToTrash os fuel paths baseDir
        {| allowMissing := false; refusePaths := refuse |} s in
    (mapOutcome (withMissing []) outcome, s').
Proof.
  set (strict := {| allowMissing := false; refusePaths := refuse |}).
  set (lenient := {| allowMissing := true; refusePaths := refuse |}).
  destruct (decide (Forall (λ rawPath, ¬ isProtected (world s) baseDir strict rawPath)
                           paths)) as [Hfree|Hsome].
  - rewrite (movePathsToTrash_sorted os fuel paths baseDir strict s Hfree).
    rewrite (movePathsToTrash_sorted os fuel paths baseDir lenient s Hfree).
    apply trashExisting_missing.
  - apply not_Forall_Exists, Exists_exists in Hsome as (rawPath & Hin & Hbad);
      [|apply _].
    apply dec_stable in Hbad.
    destruct (first_protected os (world s) baseDir strict paths rawPath Hin Hbad)
      as (before & offending & rest & -> & Hfree & Hoff).
    rewrite (movePathsToTrash_refused os fuel baseDir strict before offending rest s
               Hfree Hoff).
    rewrite (movePathsToTrash_refused os fuel baseDir lenient before offending rest s
               Hfree Hoff).
    reflexivity.
Qed.

(** ** Absolute paths *)

Lemma resolveLoop_absolute cwd pending :
  Path.isAbsolute cwd = true →
  ∀ resolvedPath, (Path.resolveLoop (pending ++ [cwd]) resolvedPath).2 = true.
Proof.
  intros Habsolute. induction pending as [|path earlier IH]; intros resolvedPath.
  - cbn [app Path.resolveLoop].
    destruct (String.eqb_spec cwd "") as [->|_]; [discriminate|].
    rewrite Habsolute. reflexivity.
  - cbn [app Path.resolveLoop].
    destruct (String.eqb path ""); [apply IH|].
    destruct (Path.isAbsolute path); [reflexivity|apply IH].
Qed.

Lemma resolve_absolute cwd args :
  Path.isAbsolute cwd = true → Js.startsWith (Path.resolve cwd args) "/" = true.
Proof.
  intros Habsolute. unfold Path.resolve.
  pose proof (resolveLoop_absolute cwd (rev args) Habsolute "") as Hflag.
  destruct (Path.resolveLoop (rev args ++ [cwd]) "") as [resolvedPath resolvedAbsolute].
  cbn in Hflag. rewrite Hflag. reflexivity.
Qed.

Lemma absoluteOf_absolute (w : World) baseDir rawPath :
  Path.isAbsolute (cwd os w) = true →
  Js.startsWith (absoluteOf w baseDir rawPath) "/" = true.
Proof.
  intros Habsolute. unfold Batch.absoluteOf.
  destruct (Js.startsWith rawPath "/") eqn:Hraw; [exact Hraw|].
  apply resolve_absolute, Habsolute.
Qed.

(** X16.  The helper is only given absolute paths.  In a process whose
    working directory is absolute (as [process.cwd()] always is),
    [resolvePath] makes every raw path a path that starts with [/],
    whatever the raw path and the base directory are; so the arguments the
    helper is spawned with after the command, one for each item to move,
    all start with [/]: no path of a batch, [-rf] say, can reach the helper
    as an option. *)
Theorem helper_is_given_absolute_paths (s : State) baseDir paths command absent :
  Path.isAbsolute (cwd os (world s)) = true →
  (∀ rawPath,
     ∃ absolutePath,
       resolvePath os baseDir rawPath s = (Returned absolutePath, s)
       ∧ Js.startsWith absolutePath "/" = true)
  ∧ ∃ early s' arguments,
      runTrashCli os command absent (existingOf (world s) baseDir paths) s
      = (Returned early, s')
      ∧ calls s' = calls s ++ [CallSpawn (command :: arguments)]
      ∧ List.length arguments = List.length (existingOf (world s) baseDir paths)
      ∧ Forall (λ argument, Js.startsWith argument "/" = true) arguments.
Proof.
  intros Habsolute. split.
  - intros rawPath. exists (absoluteOf (world s) baseDir rawPath).
    split; [apply resolvePath_reads|apply absoluteOf_absolute, Habsolute].
  - destruct (runTrashCli_outcome os command absent
                (existingOf (world s) baseDir paths) s)
      as (early & s' & Hrun & Hcalls & _).
    exists early, s', (map absolute (existingOf (world s) baseDir paths)).
    split; [exact Hrun|]. split; [exact Hcalls|]. split; [apply length_map|].
    unfold Batch.existingOf. rewrite Forall_fmap, Forall_fmap.
    apply Forall_forall. intros rawPath _. cbn.
    apply absoluteOf_absolute, Habsolute.
Qed.

End WithPlatform.
(** ** On the sample machine *)

(** Witness of X1: two paths that do not exist, on a machine that has not
    probed yet. *)
Lemma nothing_to_move_returns_at_once_witness :
  Forall (λ rawPath, Batch.canonicalOf Sim.platform Samples.plain "/work" rawPath
                     ∉ Batch.protectedPaths Sim.platform Samples.plain "/work" strict)
    ["gone.txt"; "d/gone.txt"]
  ∧ Forall (λ rawPath, ¬ Batch.presentIn Sim.platform Samples.plain "/work" rawPath)
      ["gone.txt"; "d/gone.txt"]
  ∧ movePathsToTrash Sim.platform 0 ["gone.txt"; "d/gone.txt"] "/work" strict
      (Sim.fresh Samples.plain)
    = (Returned {| missing := ["gone.txt"; "d/gone.txt"]; errors := [] |},
       Sim.fresh Samples.plain).
Proof.
  assert (Forall (λ rawPath, Batch.canonicalOf Sim.platform Samples.plain "/work" rawPath
                     ∉ Batch.protectedPaths Sim.platform Samples.plain "/work" strict)
            ["gone.txt"; "d/gone.txt"]) as Hfree by compute_done.
  assert (Forall (λ rawPath, ¬ Batch.presentIn Sim.platform Samples.plain "/work" rawPath)
            ["gone.txt"; "d/gone.txt"]) as Habsent by compute_done.
  split; [exact Hfree|]. split; [exact Habsent|].
  exact (nothing_to_move_returns_at_once Sim.platform 0 ["gone.txt"; "d/gone.txt"]
           "/work" strict (Sim.fresh Samples.plain) Hfree Habsent).
Defined.

(** Witness of X2: the helper [/usr/bin/trash] of [Samples.withHelper],
    found by the probe, takes [/work/a.txt] and exits with status 0. *)
Lemma helper_success_is_the_whole_move_witness :
  let s := Sim.fresh Samples.withHelper in
  let s1 := (findTrashCliCommand Sim.platform s).2 in
  let spawned := Sim.run (world s1) ["/usr/bin/trash"; "/work/a.txt"] Pipe in
  findTrashCliCommand Sim.platform s = (Returned (Some "/usr/bin/trash"), s1)
  ∧ (∃ proc, spawned = (inr proc, spawned.2) ∧ exited proc = inr 0%Z)
  ∧ movePathsToTrash Sim.platform 0 ["a.txt"; "gone.txt"] "/work" strict s
    = (Returned {| missing := ["gone.txt"]; errors := [] |},
       Batch.after s1 spawned.2 [CallSpawn ["/usr/bin/trash"; "/work/a.txt"]]).
Proof.
  intros s s1 spawned.
  assert (findTrashCliCommand Sim.platform s = (Returned (Some "/usr/bin/trash"), s1))
    as Hfound by (vm_compute; reflexivity).
  assert (spawned = (inr {| exited := inr 0%Z; stderr := Sim.textStream "" |}, spawned.2))
    as Hspawn by (vm_compute; reflexivity).
  split; [exact Hfound|]. split; [eexists; split; [exact Hspawn|reflexivity]|].
  refine (helper_success_is_the_whole_move Sim.platform 0 ["a.txt"; "gone.txt"] "/work"
            strict s s1 "a.txt" "/usr/bin/trash" _ spawned.2 _ _ _ Hfound _ Hspawn _).
  - compute_done.
  - compute_done.
  - vm_compute; reflexivity.
  - discriminate.
  - reflexivity.
Defined.

(** Witness of X3: the helper of [loudHelper] exits with status 1 and says
    why; the result carries its words, trimmed. *)
Lemma helper_failure_is_reported_witness :
  let s := Sim.fresh loudHelper in
  let s1 := (findTrashCliCommand Sim.platform s).2 in
  findTrashCliCommand Sim.platform s = (Returned (Some "/usr/bin/trash"), s1)
  ∧ movePathsToTrash Sim.platform 0 ["a.txt"; "gone.txt"] "/work" strict s
    = (Returned {| missing := ["gone.txt"]; errors := ["trash: permission denied"] |},
       Batch.after s1 loudHelper [CallSpawn ["/usr/bin/trash"; "/work/a.txt"]]).
Proof.
  intros s s1.
  assert (findTrashCliCommand Sim.platform s = (Returned (Some "/usr/bin/trash"), s1))
    as Hfound by (vm_compute; reflexivity).
  split; [exact Hfound|].
  refine (helper_failure_is_reported Sim.platform 0 ["a.txt"; "gone.txt"] "/work"
            strict s s1 "a.txt" "/usr/bin/trash"
            {| exited := inr 1%Z;
               stderr := Sim.textStream "  trash: permission denied
" |}
            loudHelper 1%Z _ _ _ Hfound _ _ _ _ _).
  - compute_done.
  - compute_done.
  - vm_compute; reflexivity.
  - discriminate.
  - vm_compute; reflexivity.
  - reflexivity.
  - discriminate.
  - vm_compute; discriminate.
Defined.

(** Witness of X4: the command of the cache is no longer installed; the
    spawn throws and its message becomes the error of the result. *)
Lemma helper_that_throws_is_reported_witness :
  let s := warm Samples.plain (Command "/usr/bin/trash") in
  movePathsToTrash Sim.platform 0 ["a.txt"; "gone.txt"] "/work" strict s
  = (Returned {| missing := ["gone.txt"];
                 errors := ["ENOENT: posix_spawn '/usr/bin/trash'"] |},
     Batch.after s Samples.plain [CallSpawn ["/usr/bin/trash"; "/work/a.txt"]]).
Proof.
  intros s.
  refine (helper_that_throws_is_reported Sim.platform 0 ["a.txt"; "gone.txt"] "/work"
            strict s s "a.txt" "/usr/bin/trash"
            (Sim.errno "ENOENT" "posix_spawn" "/usr/bin/trash") Samples.plain
            _ _ _ _ _ _).
  - compute_done.
  - compute_done.
  - vm_compute; reflexivity.
  - reflexivity.
  - discriminate.
  - left. vm_compute; reflexivity.
Defined.

(** Witness of X5: on [homeless], where [HOME] is not set, with no helper,
    the one error is the missing trash directory and nothing is called. *)
Lemma no_trash_directory_no_move_witness :
  let s := warm homeless Null in
  getTrashDirectory Sim.platform s = (Returned None, s)
  ∧ movePathsToTrash Sim.platform 0 ["a.txt"; "gone.txt"] "/work" strict s
    = (Returned {| missing := ["gone.txt"];
                   errors := ["Unable to locate macOS Trash directory (HOME/.Trash)."] |},
       s).
Proof.
  intros s.
  assert (getTrashDirectory Sim.platform s = (Returned None, s)) as Hnone
    by reflexivity.
  split; [exact Hnone|].
  refine (proj2 (no_trash_directory_no_move Sim.platform 0 ["a.txt"; "gone.txt"] "/work"
                   strict s "a.txt") _ _ _ _ Hnone).
  - compute_done.
  - compute_done.
  - vm_compute; reflexivity.
  - reflexivity.
Defined.

(** Witness of X10: on [Samples.hindered] the first item crosses devices
    and is copied, the second is locked and fails: one error, for the
    second. *)
Lemma fallback_errors_follow_the_items_witness :
  let s := warm Samples.hindered Null in
  let item1 := {| raw := "a.txt"; absolute := "/work/a.txt" |} in
  let item2 := {| raw := "d/a.txt"; absolute := "/work/d/a.txt" |} in
  let s' := (moveDirectly Sim.platform 1 [] [item1; item2] s).2 in
  moveDirectly Sim.platform 1 [] [item1; item2] s
  = (Returned {| missing := [];
                 errors := ["Failed to move d/a.txt to Trash: "
                            +:+ "EACCES: rename '/work/d/a.txt'"] |}, s')
  ∧ outcomesOf Sim.platform 1 "/home/u/.Trash" [item1; item2] s
    = [(item1, None); (item2, Some (Sim.errno "EACCES" "rename" "/work/d/a.txt"))]
  ∧ Batch.failureEntry item2 (Sim.errno "EACCES" "rename" "/work/d/a.txt")
    ∈ ["Failed to move d/a.txt to Trash: " +:+ "EACCES: rename '/work/d/a.txt'"].
Proof.
  intros s item1 item2 s'.
  assert (moveDirectly Sim.platform 1 [] [item1; item2] s
          = (Returned {| missing := [];
                         errors := ["Failed to move d/a.txt to Trash: "
                                    +:+ "EACCES: rename '/work/d/a.txt'"] |}, s'))
    as Hrun by (vm_compute; reflexivity).
  assert (outcomesOf Sim.platform 1 "/home/u/.Trash" [item1; item2] s
          = [(item1, None); (item2, Some (Sim.errno "EACCES" "rename" "/work/d/a.txt"))])
    as Houtcomes by (vm_compute; reflexivity).
  split; [exact Hrun|]. split; [exact Houtcomes|].
  destruct (fallback_errors_follow_the_items Sim.platform 1 [] [item1; item2] s _ s' Hrun)
    as [_ [(_ & Hunable & _)|(trashDir & new & Hdir & _ & _ & Hentry & _)]].
  - discriminate Hunable.
  - assert (trashDir = "/home/u/.Trash") as ->
      by (vm_compute in Hdir; injection Hdir as <-; reflexivity).
    apply (Hentry item2 (Sim.errno "EACCES" "rename" "/work/d/a.txt")).
    rewrite Houtcomes. apply list_elem_of_further, list_elem_of_here.
Defined.

(** Witness of X11: a batch run with the cache holding [null] leaves it
    so. *)
Lemma cache_is_filled_once_witness :
  let s := warm Samples.plain Null in
  let s' := (movePathsToTrash Sim.platform 1 ["a.txt"] "/work" strict s).2 in
  movePathsToTrash Sim.platform 1 ["a.txt"] "/work" strict s
  = (Returned {| missing := []; errors := [] |}, s')
  ∧ cachedTrashCliCommand s' = Null.
Proof.
  intros s s'.
  assert (movePathsToTrash Sim.platform 1 ["a.txt"] "/work" strict s
          = (Returned {| missing := []; errors := [] |}, s')) as Hrun
    by (vm_compute; reflexivity).
  split; [exact Hrun|].
  apply (proj1 (cache_is_filled_once Sim.platform 1 ["a.txt"] "/work" strict s _ s' Hrun)).
  discriminate.
Defined.

(** Witness of X12: the batch of [Samples.hindered], run without helper,
    renames, copies and removes, and spawns nothing. *)
Lemma without_helper_nothing_is_spawned_witness :
  let s := warm Samples.hindered Null in
  let s' := (movePathsToTrash Sim.platform 1 ["a.txt"; "d/a.txt"] "/work" strict s).2 in
  movePathsToTrash Sim.platform 1 ["a.txt"; "d/a.txt"] "/work" strict s
  = (Returned {| missing := [];
                 errors := ["Failed to move d/a.txt to Trash: "
                            +:+ "EACCES: rename '/work/d/a.txt'"] |}, s')
  ∧ cachedTrashCliCommand s' = Null
  ∧ ∃ new, calls s' = calls s ++ new ∧ Forall (λ call, ¬ isSpawn call) new.
Proof.
  intros s s'.
  assert (movePathsToTrash Sim.platform 1 ["a.txt"; "d/a.txt"] "/work" strict s
          = (Returned {| missing := [];
                         errors := ["Failed to move d/a.txt to Trash: "
                                    +:+ "EACCES: rename '/work/d/a.txt'"] |}, s'))
    as Hrun by (vm_compute; reflexivity).
  split; [exact Hrun|].
  exact (without_helper_nothing_is_spawned Sim.platform 1 ["a.txt"; "d/a.txt"] "/work"
           strict s _ s' eq_refl Hrun).
Defined.

(** Witness of X14: the command the probe finds on [Samples.withHelper]. *)
Lemma found_command_is_used_witness :
  let s := Sim.fresh Samples.withHelper in
  let s' := (findTrashCliCommand Sim.platform s).2 in
  findTrashCliCommand Sim.platform s = (Returned (Some "/usr/bin/trash"), s')
  ∧ "/usr/bin/trash"
    ∈ candidatePaths (searchDirs (Some "/usr/bin:/bin") None)
  ∧ Js.truthy "/usr/bin/trash" = true
  ∧ cachedTrashCliCommand s' = Command "/usr/bin/trash".
Proof.
  intros s s'.
  assert (findTrashCliCommand Sim.platform s = (Returned (Some "/usr/bin/trash"), s'))
    as Hfound by (vm_compute; reflexivity).
  split; [exact Hfound|].
  destruct (found_command_is_used Sim.platform s s' "/usr/bin/trash" eq_refl Hfound)
    as (Hin & _ & Htruthy & Hcached).
  split; [exact Hin|]. split; [exact Htruthy|exact Hcached].
Defined.

(** Witness of X16: on [Samples.plain], whose working directory is
    [/work], a raw path made to look like an option reaches the helper as
    [/work/-rf]. *)
Lemma helper_is_given_absolute_paths_witness :
  Path.isAbsolute (Sim.workingDirectory Samples.plain) = true
  ∧ ∃ absolutePath,
      resolvePath Sim.platform "/work" "-rf" (Sim.fresh Samples.plain)
      = (Returned absolutePath, Sim.fresh Samples.plain)
      ∧ Js.startsWith absolutePath "/" = true.
Proof.
  split; [reflexivity|].
  exact (proj1 (helper_is_given_absolute_paths Sim.platform (Sim.fresh Samples.plain)
                  "/work" ["-rf"] "trash" [] eq_refl) "-rf").
Defined.

End MoreFacts.
